(** * txt2fit: the workout text parser and the FIT step encoder

    A shallow embedding of [workout_creator.py]: the text grammar of
    [WorkoutParser] (regular expressions included) and the record builder of
    [FitWorkoutBuilder], followed by the properties proved about them.

    Modelling conventions.
    - A Python [str] is a list of Unicode code points ([pystr]).  The
      literals of the program are ASCII, so they are written as Rocq string
      literals and converted with [str].
    - Python's [float] is modelled by exact rationals ([Q]): a decimal token
      denotes its exact value, products and sums are exact, and [int(x)]
      truncates toward zero.  Binary64 rounding error is not modelled.
    - Python's unbounded [int] is [Z]; the running message index is [nat].
    - Character classes of [re] are modelled on ASCII for digits and letter
      case (decimal digits and case pairs beyond ASCII are not modelled); the
      white space class is the full set of code points Python treats as
      white space.
    - The classes of the FIT library (messages, enumerations) are not part
      of the sources; they are modelled by the attributes the program
      assigns.  A member of an enumeration counts as true in a test. *)

From Stdlib Require Import List Bool Arith ZArith NArith QArith Qround Lia.
From Stdlib Require Import Ascii String DecimalString.
Import ListNotations.

Close Scope Q_scope.
Set Implicit Arguments.

(* ================================================================== *)
(** ** Python text *)
(* ================================================================== *)

Module PyText.

Definition char := N.
Definition pystr := list char.

(** A program literal, as code points. *)
Definition str (s : string) : pystr :=
  map N_of_ascii (list_ascii_of_string s).

Definition chr (a : ascii) : char := N_of_ascii a.

Definition char_eqb (a b : char) : bool := N.eqb a b.

Fixpoint pystr_eqb (a b : pystr) : bool :=
  match a, b with
  | [], [] => true
  | x :: a', y :: b' => char_eqb x y && pystr_eqb a' b'
  | _, _ => false
  end.

(** [c.lower()] on one code point (ASCII letters). *)
Definition lower_char (c : char) : char :=
  if ((65 <=? c) && (c <=? 90))%N then (c + 32)%N else c.

(** [s.lower()] *)
Definition lower (s : pystr) : pystr := map lower_char s.

(** [c.isspace()]: the code points Python's [str.strip] and [\s] treat as
    white space. *)
Definition is_space (c : char) : bool :=
  (((9 <=? c) && (c <=? 13)) || ((28 <=? c) && (c <=? 32))
   || (c =? 133) || (c =? 160) || (c =? 5760)
   || ((8192 <=? c) && (c <=? 8202))
   || (c =? 8232) || (c =? 8233) || (c =? 8239) || (c =? 8287)
   || (c =? 12288))%N.

(** ASCII decimal digit. *)
Definition is_digit (c : char) : bool := ((48 <=? c) && (c <=? 57))%N.

(** [s.startswith(p)] *)
Fixpoint startswith (p s : pystr) : bool :=
  match p, s with
  | [], _ => true
  | x :: p', y :: s' => char_eqb x y && startswith p' s'
  | _ :: _, [] => false
  end.

(** [p in s] for strings: [p] occurs as a contiguous substring of [s]. *)
Fixpoint contains (p s : pystr) : bool :=
  startswith p s ||
  match s with
  | [] => false
  | _ :: s' => contains p s'
  end.

(** [s.lstrip()], [s.rstrip()], [s.strip()] *)
Fixpoint lstrip (s : pystr) : pystr :=
  match s with
  | c :: s' => if is_space c then lstrip s' else s
  | [] => []
  end.

Definition rstrip (s : pystr) : pystr := rev (lstrip (rev s)).

Definition strip (s : pystr) : pystr := rstrip (lstrip s).

(** [s.split(sep)] for a one-character separator: the pieces, in order. *)
Fixpoint split_on (sep : char) (s : pystr) : list pystr :=
  match s with
  | [] => [[]]
  | c :: s' =>
      match split_on sep s' with
      | piece :: rest =>
          if char_eqb c sep then [] :: piece :: rest else (c :: piece) :: rest
      | [] => [[c]]
      end
  end.

(** [sep.join(parts)] *)
Fixpoint join (sep : pystr) (parts : list pystr) : pystr :=
  match parts with
  | [] => []
  | [p] => p
  | p :: rest => p ++ sep ++ join sep rest
  end.

(** Slices [s[:i]] and [s[i:]] for [0 <= i]. *)
Definition slice_to (i : nat) (s : pystr) : pystr := firstn i s.
Definition slice_from (i : nat) (s : pystr) : pystr := skipn i s.

(** [str(n)] for a non-negative integer, and for any integer. *)
Definition str_of_N (n : N) : pystr :=
  str (NilZero.string_of_uint (N.to_uint n)).

Definition str_of_Z (z : Z) : pystr :=
  if (z <? 0)%Z then chr "-" :: str_of_N (Z.to_N (- z)) else str_of_N (Z.to_N z).

Definition str_of_nat (n : nat) : pystr := str_of_N (N.of_nat n).

End PyText.
Import PyText.

(* ================================================================== *)
(** ** Python numbers *)
(* ================================================================== *)

Module PyNum.

(** Value of a run of ASCII digits, most significant first. *)
Definition digit_val (c : char) : Z := Z.of_N c - 48.

Definition digits_val (s : pystr) : Z :=
  fold_left (fun acc c => 10 * acc + digit_val c)%Z s 0%Z.

(** [int(s)] for a token matched by [\d+]. *)
Definition int_of_str (s : pystr) : Z := digits_val s.

(** Splits a decimal token at its first ".". *)
Fixpoint split_dot (s : pystr) : pystr * option pystr :=
  match s with
  | [] => ([], None)
  | c :: s' =>
      if char_eqb c (chr ".") then ([], Some s')
      else let (i, f) := split_dot s' in (c :: i, f)
  end.

(** [float(s)] for a token matched by [\d+(?:\.\d+)?]: its exact value. *)
Definition float_of_str (s : pystr) : Q :=
  match split_dot s with
  | (i, None) => inject_Z (digits_val i)
  | (i, Some f) =>
      let scale := Pos.pow 10 (Pos.of_nat (List.length f)) in
      Qmake (digits_val i * Zpos scale + digits_val f) scale
  end.

(** [int(x)] on a float: truncation toward zero. *)
Definition py_int (x : Q) : Z := Z.quot (Qnum x) (Zpos (Qden x)).

(** Comparison operators on floats. *)
Definition Qlt_bool (a b : Q) : bool := negb (Qle_bool b a).
Definition Qge_bool (a b : Q) : bool := Qle_bool b a.

(** Round to the nearest integer, ties to the even one (on a value >= 0). *)
Definition round_half_even (x : Q) : Z :=
  let n := Qnum x in
  let d := Zpos (Qden x) in
  let q := (n / d)%Z in
  let r := (n mod d)%Z in
  match (2 * r ?= d)%Z with
  | Lt => q
  | Gt => (q + 1)%Z
  | Eq => if Z.even q then q else (q + 1)%Z
  end.

(** The format [f"{x:.0f}"]. *)
Definition fmt0 (x : Q) : pystr :=
  if Qlt_bool x 0%Q
  then chr "-" :: str_of_N (Z.to_N (round_half_even (Qopp x)))
  else str_of_N (Z.to_N (round_half_even x)).

End PyNum.
Import PyNum.

(* ================================================================== *)
(** ** The fragment of [re] the program uses *)
(* ================================================================== *)

Module Re.

(** Patterns.  All patterns of the program are compiled with
    [re.IGNORECASE], so a literal matches either letter case.  Repetition
    is only ever applied to a single character class in the program
    (runs of digits, of white space, of dashes, of non-quote characters). *)
Inductive regex : Type :=
| Eps : regex
| Lit : char -> regex                  (* a literal character *)
| Cls : (char -> bool) -> regex        (* a character class *)
| Cat : regex -> regex -> regex
| Alt : regex -> regex -> regex        (* r1|r2, r1 tried first *)
| Opt : regex -> regex                 (* r?, greedy *)
| Star : (char -> bool) -> regex       (* class*, greedy *)
| Plus : (char -> bool) -> regex       (* class+, greedy *)
| Grp : nat -> regex -> regex.         (* capture group number n *)

(** Captured groups: number and text, the most recently closed first. *)
Definition caps := list (nat * pystr).

(** A literal under IGNORECASE. *)
Definition lit_matches (c x : char) : bool := char_eqb (lower_char x) (lower_char c).

Section Matcher.
Variable A : Type.

(** Greedy [class*] with backtracking: the longest run first, then
    shorter ones, until the continuation accepts. *)
Fixpoint star_m (p : char -> bool) (s : pystr) (k : pystr -> option A) : option A :=
  match s with
  | c :: s' =>
      if p c
      then match star_m p s' k with
           | Some v => Some v
           | None => k s
           end
      else k s
  | [] => k []
  end.

(** Backtracking matcher in continuation-passing style: [rmatch r s g k]
    matches [r] at the front of [s] and hands the rest of the input and the
    captures to [k]; when [k] refuses, the next alternative is tried. *)
Fixpoint rmatch (r : regex) (s : pystr) (g : caps)
         (k : pystr -> caps -> option A) : option A :=
  match r with
  | Eps => k s g
  | Lit c =>
      match s with
      | x :: s' => if lit_matches c x then k s' g else None
      | [] => None
      end
  | Cls p =>
      match s with
      | x :: s' => if p x then k s' g else None
      | [] => None
      end
  | Cat r1 r2 => rmatch r1 s g (fun s' g' => rmatch r2 s' g' k)
  | Alt r1 r2 =>
      match rmatch r1 s g k with
      | Some v => Some v
      | None => rmatch r2 s g k
      end
  | Opt r1 =>
      match rmatch r1 s g k with
      | Some v => Some v
      | None => k s g
      end
  | Star p => star_m p s (fun s' => k s' g)
  | Plus p =>
      match s with
      | x :: s' => if p x then star_m p s' (fun s'' => k s'' g) else None
      | [] => None
      end
  | Grp n r1 =>
      rmatch r1 s g
        (fun s' g' => k s' ((n, firstn (List.length s - List.length s') s) :: g'))
  end.
End Matcher.

(** A match object: [start()], [end()] and the groups. *)
Record Match : Type := mkMatch {
  m_start : nat;
  m_end : nat;
  m_caps : caps
}.

(** Match of [r] at the front of [s]: the length matched and the groups. *)
Definition match_here (r : regex) (s : pystr) : option (nat * caps) :=
  rmatch r s [] (fun s' g => Some (List.length s - List.length s', g)).

(** [pattern.match(s)]: a match anchored at position 0. *)
Definition re_match (r : regex) (s : pystr) : option Match :=
  match match_here r s with
  | Some (n, g) => Some (mkMatch 0 n g)
  | None => None
  end.

(** [pattern.search(s)]: the match at the leftmost position that has one. *)
Fixpoint search_from (r : regex) (pos : nat) (s : pystr) : option Match :=
  match match_here r s with
  | Some (n, g) => Some (mkMatch pos (pos + n) g)
  | None =>
      match s with
      | [] => None
      | _ :: s' => search_from r (S pos) s'
      end
  end.

Definition search (r : regex) (s : pystr) : option Match := search_from r 0 s.

(** [m.group(n)]: [None] when the group took no part in the match. *)
Fixpoint lookup (n : nat) (g : caps) : option pystr :=
  match g with
  | [] => None
  | (i, t) :: g' => if Nat.eqb i n then Some t else lookup n g'
  end.

Definition group (n : nat) (m : Match) : option pystr := lookup n (m_caps m).

(** A group the pattern always sets. *)
Definition group_str (n : nat) (m : Match) : pystr :=
  match group n m with Some t => t | None => [] end.

(** Pattern building blocks. *)
Fixpoint lits (s : pystr) : regex :=
  match s with
  | [] => Eps
  | [c] => Lit c
  | c :: s' => Cat (Lit c) (lits s')
  end.

Definition word (s : string) : regex := lits (str s).

Fixpoint cats (rs : list regex) : regex :=
  match rs with
  | [] => Eps
  | [r] => r
  | r :: rs' => Cat r (cats rs')
  end.

Fixpoint alts (rs : list regex) : regex :=
  match rs with
  | [] => Eps
  | [r] => r
  | r :: rs' => Alt r (alts rs')
  end.

End Re.
Import Re.

(* ================================================================== *)
(** ** The workout model *)
(* ================================================================== *)

(** [class StepType(Enum)] *)
Inductive StepType : Type :=
| STEADY | RAMP | RANGE | OPEN | WARMUP | COOLDOWN | RECOVERY | REPEAT.

(** [class TargetType(Enum)] *)
Inductive TargetType : Type := POWER | HEART_RATE | CADENCE | TARGET_OPEN.

(** Modelled from the spec: the enumeration [Intensity] of the FIT profile
    library, which is not part of the sources; the five members the program
    uses. *)
Inductive Intensity : Type :=
| I_ACTIVE | I_WARMUP | I_COOLDOWN | I_RECOVERY | I_INTERVAL.

Definition StepType_eqb (a b : StepType) : bool :=
  match a, b with
  | STEADY, STEADY | RAMP, RAMP | RANGE, RANGE | OPEN, OPEN
  | WARMUP, WARMUP | COOLDOWN, COOLDOWN | RECOVERY, RECOVERY
  | REPEAT, REPEAT => true
  | _, _ => false
  end.

Definition TargetType_eqb (a b : TargetType) : bool :=
  match a, b with
  | POWER, POWER | HEART_RATE, HEART_RATE | CADENCE, CADENCE
  | TARGET_OPEN, TARGET_OPEN => true
  | _, _ => false
  end.

(** [@dataclass class WorkoutStep] *)
#[warnings="-register-all"] Inductive WorkoutStep : Type := mkWorkoutStep {
  step_type : StepType;
  duration_seconds : Q;
  target_type : TargetType;
  power_low_pct : Q;
  power_high_pct : Q;
  hr_target_type : option TargetType;
  hr_low : Q;
  hr_high : Q;
  hr_is_percentage : bool;
  cadence_low : option Z;
  cadence_high : option Z;
  name : pystr;
  notes : pystr;
  intensity : option Intensity;
  repeat_count : Z;
  repeat_steps : list WorkoutStep
}.

(** [WorkoutStep.__post_init__] *)
Definition post_init (s : WorkoutStep) : WorkoutStep :=
  let high :=
    if StepType_eqb (step_type s) STEADY && Qeq_bool (power_high_pct s) 0%Q
    then power_low_pct s else power_high_pct s in
  let cad_high :=
    match cadence_low s, cadence_high s with
    | Some lo, None => Some lo
    | _, h => h
    end in
  mkWorkoutStep (step_type s) (duration_seconds s) (target_type s)
    (power_low_pct s) high (hr_target_type s) (hr_low s) (hr_high s)
    (hr_is_percentage s) (cadence_low s) cad_high (name s) (notes s)
    (intensity s) (repeat_count s) (repeat_steps s).

(** The constructor call [WorkoutStep(...)]: the fields, then
    [__post_init__]. *)
Definition new_WorkoutStep st dur tg pl ph hrt hl hh hp cl ch nm nt it rc rs :=
  post_init (mkWorkoutStep st dur tg pl ph hrt hl hh hp cl ch nm nt it rc rs).

(** [step.intensity = i] *)
Definition set_intensity (i : option Intensity) (s : WorkoutStep) : WorkoutStep :=
  mkWorkoutStep (step_type s) (duration_seconds s) (target_type s)
    (power_low_pct s) (power_high_pct s) (hr_target_type s) (hr_low s)
    (hr_high s) (hr_is_percentage s) (cadence_low s) (cadence_high s)
    (name s) (notes s) i (repeat_count s) (repeat_steps s).

(** [class Workout]; the sport is fixed to cycling. *)
Record Workout : Type := mkWorkout {
  workout_name : pystr;
  steps : list WorkoutStep
}.

(** [sum(s.duration_seconds for s in xs)] *)
Definition sum_durations (xs : list WorkoutStep) : Q :=
  fold_left (fun acc s => Qplus acc (duration_seconds s)) xs 0%Q.

(** [Workout.total_duration_seconds] *)
Definition total_duration_seconds (w : Workout) : Q :=
  fold_left
    (fun total step =>
       if StepType_eqb (step_type step) REPEAT
       then Qplus total
              (Qmult (sum_durations (repeat_steps step))
                     (inject_Z (repeat_count step)))
       else Qplus total (duration_seconds step))
    (steps w) 0%Q.

(** [f"{z:02d}"]: at least two characters, padded with a zero on the left. *)
Definition fmt02d (z : Z) : pystr :=
  let s := str_of_Z z in
  if (List.length s <? 2)%nat then chr "0" :: s else s.

(** [Workout.total_duration_formatted]; [divmod] is the floored division of
    [Z]. *)
Definition total_duration_formatted (w : Workout) : pystr :=
  let total := py_int (total_duration_seconds w) in
  let hours := (total / 3600)%Z in
  let remainder := (total mod 3600)%Z in
  let minutes := (remainder / 60)%Z in
  let seconds := (remainder mod 60)%Z in
  if (hours >? 0)%Z
  then str_of_Z hours ++ str ":" ++ fmt02d minutes ++ str ":" ++ fmt02d seconds
  else str_of_Z minutes ++ str ":" ++ fmt02d seconds.

(** Exceptions, with their message. *)
Inductive exn : Type :=
| WorkoutParseError : pystr -> exn
| ValueError : pystr -> exn.

Definition exn_message (e : exn) : pystr :=
  match e with
  | WorkoutParseError m => m
  | ValueError m => m
  end.

(** The outcome of a call that may raise. *)
Inductive result (A : Type) : Type :=
| Ok : A -> result A
| Raise : exn -> result A.
Arguments Ok {A} _.
Arguments Raise {A} _.

(* ================================================================== *)
(** ** [class WorkoutParser] *)
(* ================================================================== *)

Module WorkoutParser.

Definition dash (c : char) : bool :=
  ((c =? 45) || (c =? 8211) || (c =? 8212))%N.

Definition not_quote (c : char) : bool := negb (c =? 34)%N.

Definition quote : char := 34%N.

(** [\d+(?:\.\d+)?] *)
Definition number : regex :=
  Cat (Plus is_digit) (Opt (Cat (Lit (chr ".")) (Plus is_digit))).

(** [\s*%\s*(?:of\s+)?ftp] *)
Definition pct_ftp : list regex :=
  [Star is_space; Lit (chr "%"); Star is_space;
   Opt (Cat (word "of") (Plus is_space)); word "ftp"].

(** [s|sec|seconds?|m|min|minutes?|h|hr|hours?] *)
Definition unit_alts : regex :=
  alts [word "s"; word "sec"; Cat (word "second") (Opt (Lit (chr "s")));
        word "m"; word "min"; Cat (word "minute") (Opt (Lit (chr "s")));
        word "h"; word "hr"; Cat (word "hour") (Opt (Lit (chr "s")))].

(** [(\d+(?:\.\d+)?)\s*(s|sec|seconds?|m|min|minutes?|h|hr|hours?)] *)
Definition DURATION_PATTERN : regex :=
  cats [Grp 1 number; Star is_space; Grp 2 unit_alts].

(** [(\d+(?:\.\d+)?)\s*%\s*(?:of\s+)?ftp] *)
Definition POWER_STEADY_PATTERN : regex :=
  cats (Grp 1 number :: pct_ftp).

(** [(\d+(?:\.\d+)?)\s*%?\s*[---]+\s*(\d+(?:\.\d+)?)\s*%\s*(?:of\s+)?ftp],
    the class holding the hyphen, the en dash and the em dash. *)
Definition POWER_RAMP_PATTERN : regex :=
  cats ([Grp 1 number; Star is_space; Opt (Lit (chr "%")); Star is_space;
         Plus dash; Star is_space; Grp 2 number] ++ pct_ftp).

(** [(\d+(?:\.\d+)?)\s*[---]+\s*(\d+(?:\.\d+)?)\s*%\s*(?:of\s+)?ftp] *)
Definition POWER_RANGE_PATTERN : regex :=
  cats ([Grp 1 number; Star is_space;
         Plus dash; Star is_space; Grp 2 number] ++ pct_ftp).

(** [(?:\s*[---]+\s*(\d+))?] *)
Definition opt_upper : regex :=
  Opt (cats [Star is_space; Plus dash; Star is_space; Grp 2 (Plus is_digit)]).

(** [@\s*(\d+)(?:\s*[---]+\s*(\d+))?\s*rpm] *)
Definition CADENCE_PATTERN : regex :=
  cats [Lit (chr "@"); Star is_space; Grp 1 (Plus is_digit); opt_upper;
        Star is_space; word "rpm"].

(** [(\d+)(?:\s*[---]+\s*(\d+))?\s*bpm] *)
Definition HR_ABSOLUTE_PATTERN : regex :=
  cats [Grp 1 (Plus is_digit); opt_upper; Star is_space; word "bpm"].

(** [(\d+)(?:\s*[---]+\s*(\d+))?\s*%\s*(?:maxW)?hr], where [W] stands for
    an optional run of white space, [\s*]. *)
Definition HR_PERCENTAGE_PATTERN : regex :=
  cats [Grp 1 (Plus is_digit); opt_upper; Star is_space; Lit (chr "%");
        Star is_space; Opt (Cat (word "max") (Star is_space)); word "hr"].

(** A quotation mark, [([^q]+)], a quotation mark ([q] the quotation mark). *)
Definition NOTES_PATTERN : regex :=
  cats [Lit quote; Grp 1 (Plus not_quote); Lit quote].

(** [^(\d+)\s*x\s+]; the pattern is only used through [match], which
    anchors at position 0, where the leading [^] holds. *)
Definition REPEAT_PATTERN : regex :=
  cats [Grp 1 (Plus is_digit); Star is_space; Lit (chr "x"); Plus is_space].

(** [SPECIAL_KEYWORDS], in the order of the dictionary. *)
Definition SPECIAL_KEYWORDS : list (pystr * StepType) :=
  [(str "warmup", WARMUP); (str "warm-up", WARMUP); (str "warm up", WARMUP);
   (str "cooldown", COOLDOWN); (str "cool-down", COOLDOWN);
   (str "cool down", COOLDOWN); (str "recovery", RECOVERY);
   (str "rest", RECOVERY); (str "open", OPEN); (str "free", OPEN);
   (str "free ride", OPEN); (str "freeride", OPEN)].

(** [INTENSITY_KEYWORDS], in the order of the dictionary. *)
Definition INTENSITY_KEYWORDS : list (pystr * Intensity) :=
  [(str "warmup", I_WARMUP); (str "warm-up", I_WARMUP);
   (str "cooldown", I_COOLDOWN); (str "cool-down", I_COOLDOWN);
   (str "recovery", I_RECOVERY); (str "rest", I_RECOVERY);
   (str "easy", I_RECOVERY); (str "endurance", I_ACTIVE);
   (str "tempo", I_ACTIVE); (str "threshold", I_ACTIVE);
   (str "sweetspot", I_ACTIVE); (str "sweet spot", I_ACTIVE);
   (str "vo2", I_INTERVAL); (str "vo2max", I_INTERVAL);
   (str "interval", I_INTERVAL); (str "sprint", I_INTERVAL);
   (str "anaerobic", I_INTERVAL)].

(** [for keyword, v in table.items(): if keyword in lower_line: ...]: the
    value of the first keyword of the table that occurs in the line. *)
Fixpoint first_keyword (V : Type) (table : list (pystr * V)) (lower_line : pystr)
  : option V :=
  match table with
  | [] => None
  | (keyword, v) :: rest =>
      if contains keyword lower_line then Some v
      else first_keyword rest lower_line
  end.

(** [unit in (...)] *)
Definition unit_in (unit : pystr) (names : list string) : bool :=
  existsb (fun n => pystr_eqb unit (str n)) names.

(** [_parse_duration] *)
Definition _parse_duration (line : pystr) : option Q :=
  match search DURATION_PATTERN line with
  | None => None
  | Some m =>
      let value := float_of_str (group_str 1 m) in
      let unit := lower (group_str 2 m) in
      if unit_in unit ["s"; "sec"; "second"; "seconds"]%string then Some value
      else if unit_in unit ["m"; "min"; "minute"; "minutes"]%string
      then Some (Qmult value 60)
      else if unit_in unit ["h"; "hr"; "hour"; "hours"]%string
      then Some (Qmult value 3600)
      else None
  end.

(** [notes or default] *)
Definition notes_or (notes : pystr) (default : string) : pystr :=
  match notes with
  | [] => str default
  | _ => notes
  end.

Definition StepType_repr (t : StepType) : pystr :=
  str match t with
      | STEADY => "StepType.STEADY" | RAMP => "StepType.RAMP"
      | RANGE => "StepType.RANGE" | OPEN => "StepType.OPEN"
      | WARMUP => "StepType.WARMUP" | COOLDOWN => "StepType.COOLDOWN"
      | RECOVERY => "StepType.RECOVERY" | REPEAT => "StepType.REPEAT"
      end.

(** [_create_special_step] *)
Definition _create_special_step (step_type : StepType) (duration : Q)
           (notes : pystr) : result WorkoutStep :=
  match step_type with
  | WARMUP =>
      Ok (new_WorkoutStep RAMP duration POWER 40 75 None 0 0 false None None
            (str "Warmup") (notes_or notes "Easy spin, gradually increase effort")
            (Some I_WARMUP) 1 [])
  | COOLDOWN =>
      Ok (new_WorkoutStep RAMP duration POWER 65 40 None 0 0 false None None
            (str "Cooldown") (notes_or notes "Easy spin, relax")
            (Some I_COOLDOWN) 1 [])
  | RECOVERY =>
      Ok (new_WorkoutStep STEADY duration POWER 50 50 None 0 0 false None None
            (str "Recovery") (notes_or notes "Easy spinning, recover")
            (Some I_RECOVERY) 1 [])
  | OPEN =>
      Ok (new_WorkoutStep OPEN duration TARGET_OPEN 0 0 None 0 0 false None None
            (str "Free Ride") (notes_or notes "Ride at your own pace")
            (Some I_ACTIVE) 1 [])
  | t => Raise (ValueError (str "Unknown special step type: " ++ StepType_repr t))
  end.

(** The repeat block built around one step when the count exceeds 1. *)
Definition repeat_block (repeat_count : Z) (step : WorkoutStep) : WorkoutStep :=
  new_WorkoutStep REPEAT 0 POWER 0 0 None 0 0 false None None
    (str_of_Z repeat_count ++ str "x " ++ name step) [] None
    repeat_count [step].

(** The end of both paths of [_parse_line]: the manual intensity, when one
    was found, then the repeat block. *)
Definition finish_step (manual_intensity : option Intensity) (repeat_count : Z)
           (step : WorkoutStep) : WorkoutStep :=
  let step :=
    match manual_intensity with
    | Some i => set_intensity (Some i) step
    | None => step
    end in
  if (repeat_count >? 1)%Z then repeat_block repeat_count step else step.

(** The heart-rate target of a line: low, high, percentage flag, target
    type.  The percentage pattern is consulted first. *)
Definition parse_hr (line : pystr) : Q * Q * bool * option TargetType :=
  let hr_pct_match := search HR_PERCENTAGE_PATTERN line in
  let hr_abs_match := search HR_ABSOLUTE_PATTERN line in
  let bounds m :=
    let lo := float_of_str (group_str 1 m) in
    let hi := match group 2 m with
              | Some (c :: t) => float_of_str (c :: t)
              | _ => lo
              end in
    (lo, hi) in
  match hr_pct_match, hr_abs_match with
  | Some m, _ => let (lo, hi) := bounds m in (lo, hi, true, Some HEART_RATE)
  | None, Some m => let (lo, hi) := bounds m in (lo, hi, false, Some HEART_RATE)
  | None, None => (0%Q, 0%Q, false, None)
  end.

(** The cadence band of a line. *)
Definition parse_cadence (line : pystr) : option Z * option Z :=
  match search CADENCE_PATTERN line with
  | Some m =>
      let lo := int_of_str (group_str 1 m) in
      let hi := match group 2 m with
                | Some (c :: t) => int_of_str (c :: t)
                | _ => lo
                end in
      (Some lo, Some hi)
  | None => (None, None)
  end.

(** The name of a heart-rate step. *)
Definition hr_name (hr_low hr_high : Q) (hr_is_pct : bool) : pystr :=
  if hr_is_pct
  then if negb (Qeq_bool hr_low hr_high)
       then fmt0 hr_low ++ str "%-" ++ fmt0 hr_high ++ str "% HR"
       else fmt0 hr_low ++ str "% HR"
  else if negb (Qeq_bool hr_low hr_high)
       then fmt0 hr_low ++ str "-" ++ fmt0 hr_high ++ str " bpm"
       else fmt0 hr_low ++ str " bpm".

(** [_parse_line], from the test for special keywords on: [line] is the
    text left after the notes and the repeat prefix were taken out. *)
Definition parse_step (original_line notes : pystr) (repeat_count : Z)
           (line : pystr) : result WorkoutStep :=
  let lower_line := lower line in
  let manual_intensity := first_keyword INTENSITY_KEYWORDS lower_line in
  match first_keyword SPECIAL_KEYWORDS lower_line with
  | Some step_type =>
      match _parse_duration line with
      | None =>
          Raise (WorkoutParseError (str "No duration found in: " ++ original_line))
      | Some duration =>
          match _create_special_step step_type duration notes with
          | Raise e => Raise e
          | Ok step => Ok (finish_step manual_intensity repeat_count step)
          end
      end
  | None =>
      match _parse_duration line with
      | None =>
          Raise (WorkoutParseError (str "No duration found in: " ++ original_line))
      | Some duration =>
          let '(cadence_low, cadence_high) := parse_cadence line in
          let '(hr_low, hr_high, hr_is_pct, hr_target_type) := parse_hr line in
          let ramp_match := search POWER_RAMP_PATTERN line in
          let range_match := search POWER_RANGE_PATTERN line in
          let steady_match := search POWER_STEADY_PATTERN line in
          let power_step st nm lo hi :=
            new_WorkoutStep st duration POWER lo hi hr_target_type hr_low
              hr_high hr_is_pct cadence_low cadence_high nm notes None 1 [] in
          let step :=
            match ramp_match, range_match, steady_match with
            | Some m, _, _ =>
                let power_low := float_of_str (group_str 1 m) in
                let power_high := float_of_str (group_str 2 m) in
                Some (power_step RAMP
                        (str "Ramp " ++ fmt0 power_low ++ str "%-"
                           ++ fmt0 power_high ++ str "%")
                        power_low power_high)
            | None, Some m, _ =>
                let power_low := float_of_str (group_str 1 m) in
                let power_high := float_of_str (group_str 2 m) in
                Some (power_step RANGE
                        (fmt0 power_low ++ str "-" ++ fmt0 power_high
                           ++ str "% FTP")
                        power_low power_high)
            | None, None, Some m =>
                let power := float_of_str (group_str 1 m) in
                Some (power_step STEADY (fmt0 power ++ str "% FTP") power power)
            | None, None, None =>
                match hr_target_type with
                | Some _ =>
                    Some (new_WorkoutStep STEADY duration HEART_RATE 0 0
                            hr_target_type hr_low hr_high hr_is_pct
                            cadence_low cadence_high
                            (hr_name hr_low hr_high hr_is_pct) notes None 1 [])
                | None => None
                end
            end in
          match step with
          | None =>
              Raise (WorkoutParseError
                       (str "No power or HR target found in: " ++ original_line))
          | Some step => Ok (finish_step manual_intensity repeat_count step)
          end
      end
  end.

(** The notes of a line and the line without them. *)
Definition extract_notes (line : pystr) : pystr * pystr :=
  match search NOTES_PATTERN line with
  | Some notes_match =>
      (group_str 1 notes_match,
       slice_to (m_start notes_match) line ++ slice_from (m_end notes_match) line)
  | None => ([], line)
  end.

(** The repeat count of a line and the line without the prefix. *)
Definition extract_repeat (line : pystr) : Z * pystr :=
  match re_match REPEAT_PATTERN line with
  | Some repeat_match =>
      (int_of_str (group_str 1 repeat_match),
       strip (slice_from (m_end repeat_match) line))
  | None => (1%Z, line)
  end.

(** [_parse_line] *)
Definition _parse_line (line : pystr) : result WorkoutStep :=
  let original_line := line in
  let '(notes, line) := extract_notes line in
  let '(repeat_count, line) := extract_repeat line in
  parse_step original_line notes repeat_count line.

(** The loop of [parse] over the numbered lines. *)
Fixpoint parse_lines (line_num : nat) (lines : list pystr)
  : result (list WorkoutStep) :=
  match lines with
  | [] => Ok []
  | line :: rest =>
      if startswith (str "#") line || startswith (str "//") line
      then parse_lines (S line_num) rest
      else
        match _parse_line line with
        | Raise e =>
            Raise (WorkoutParseError
                     (str "Line " ++ str_of_nat line_num ++ str ": Failed to parse '"
                        ++ line ++ str "' - " ++ exn_message e))
        | Ok step =>
            match parse_lines (S line_num) rest with
            | Ok steps => Ok (step :: steps)
            | Raise e => Raise e
            end
        end
  end.

(** [parse] *)
Definition parse (text : pystr) : result (list WorkoutStep) :=
  let lines :=
    map strip
      (filter (fun line => match strip line with [] => false | _ => true end)
         (split_on 10%N (strip text))) in
  match parse_lines 1 lines with
  | Raise e => Raise e
  | Ok [] => Raise (WorkoutParseError (str "No valid workout steps found"))
  | Ok steps => Ok steps
  end.

End WorkoutParser.
Import WorkoutParser.

(* ================================================================== *)
(** ** The records handed to the FIT container *)
(* ================================================================== *)

(** Modelled from the spec: the message classes and enumerations of the FIT
    library ([WorkoutStepMessage], [WorkoutMessage], [WorkoutStepDuration],
    [WorkoutStepTarget]) are not part of the sources; a message is the record
    of the attributes the builder assigns, an attribute never assigned being
    [None]. *)
Inductive WorkoutStepDuration : Type := TIME | REPEAT_UNTIL_STEPS_CMPLT.

Inductive WorkoutStepTarget : Type := T_OPEN | T_HEART_RATE | T_POWER.

Module Msg.
Record WorkoutStepMessage : Type := mk {
  message_index : nat;
  workout_step_name : pystr;
  notes : option pystr;
  duration_type : WorkoutStepDuration;
  duration_value : option Z;
  duration_step : option nat;
  target_type : WorkoutStepTarget;
  target_value : Z;
  custom_target_value_low : option Z;
  custom_target_value_high : option Z;
  intensity : Intensity
}.
End Msg.

Record WorkoutMessage : Type := mkWorkoutMessage {
  wm_workout_name : pystr;
  num_valid_steps : nat
}.

(* ================================================================== *)
(** ** [class FitWorkoutBuilder] *)
(* ================================================================== *)

Module FitWorkoutBuilder.

Definition FTP_SCALE : Q := 1.
Definition HR_ABSOLUTE_OFFSET : Z := 100.
Definition DURATION_MS_SCALE : Q := 1000.

(** [_count_valid_steps] *)
Definition _count_valid_steps (w : Workout) : nat :=
  fold_left
    (fun count step =>
       if StepType_eqb (step_type step) REPEAT
       then count + (1 + List.length (repeat_steps step))
       else count + 1)
    (steps w) 0.

(** [_create_workout_message] *)
Definition _create_workout_message (w : Workout) : WorkoutMessage :=
  mkWorkoutMessage (workout_name w) (_count_valid_steps w).

(** [_get_intensity] *)
Definition _get_intensity (step : WorkoutStep) : Intensity :=
  match intensity step with
  | Some i => i
  | None =>
      if StepType_eqb (step_type step) OPEN then I_ACTIVE
      else if TargetType_eqb (target_type step) HEART_RATE then I_ACTIVE
      else
        let avg_power :=
          Qdiv (Qplus (power_low_pct step) (power_high_pct step)) 2 in
        if StepType_eqb (step_type step) WARMUP
           || contains (str "warmup") (lower (name step))
        then I_WARMUP
        else if StepType_eqb (step_type step) COOLDOWN
                || contains (str "cooldown") (lower (name step))
        then I_COOLDOWN
        else if StepType_eqb (step_type step) RECOVERY || Qlt_bool avg_power 56
        then I_RECOVERY
        else if Qge_bool avg_power 106 then I_INTERVAL
        else I_ACTIVE
  end.

(** The notes of a record: the notes of the step, then the cadence band. *)
Definition step_notes (step : WorkoutStep) : option pystr :=
  let notes_parts :=
    (match notes step with [] => [] | n => [n] end)
    ++ match cadence_low step with
       | None => []
       | Some lo =>
           match cadence_high step with
           | Some hi =>
               if (lo =? hi)%Z
               then [str "Cadence: " ++ str_of_Z lo ++ str " rpm"]
               else [str "Cadence: " ++ str_of_Z lo ++ str "-" ++ str_of_Z hi
                       ++ str " rpm"]
           | None => [str "Cadence: " ++ str_of_Z lo ++ str "-None rpm"]
           end
       end in
  match notes_parts with
  | [] => None
  | _ => Some (join (str " | ") notes_parts)
  end.

(** [_create_single_step]: the record and the next value of
    [self.step_index]. *)
Definition _create_single_step (step : WorkoutStep) (step_index : nat)
  : Msg.WorkoutStepMessage * nat :=
  let message_index := step_index in
  let workout_step_name :=
    match name step with
    | [] => str "Step " ++ str_of_nat (message_index + 1)
    | n => n
    end in
  let duration_value := py_int (Qmult (duration_seconds step) DURATION_MS_SCALE) in
  let '(target, low, high) :=
    if TargetType_eqb (target_type step) TARGET_OPEN
       || StepType_eqb (step_type step) OPEN
    then (T_OPEN, None, None)
    else if TargetType_eqb (target_type step) HEART_RATE
    then if hr_is_percentage step
         then (T_HEART_RATE, Some (py_int (hr_low step)), Some (py_int (hr_high step)))
         else (T_HEART_RATE,
               Some (py_int (hr_low step) + HR_ABSOLUTE_OFFSET)%Z,
               Some (py_int (hr_high step) + HR_ABSOLUTE_OFFSET)%Z)
    else (T_POWER,
          Some (py_int (Qmult (power_low_pct step) FTP_SCALE)),
          Some (py_int (Qmult (power_high_pct step) FTP_SCALE))) in
  (Msg.mk message_index workout_step_name (step_notes step) TIME
     (Some duration_value) None target 0%Z low high (_get_intensity step),
   step_index + 1).

(** The loop [for inner_step in ...: messages.append(...)]. *)
Fixpoint create_single_steps (inner : list WorkoutStep) (step_index : nat)
  : list Msg.WorkoutStepMessage * nat :=
  match inner with
  | [] => ([], step_index)
  | s :: rest =>
      let (m, i1) := _create_single_step s step_index in
      let (ms, i2) := create_single_steps rest i1 in
      (m :: ms, i2)
  end.

(** [_create_repeat_steps] *)
Definition _create_repeat_steps (step : WorkoutStep) (step_index : nat)
  : list Msg.WorkoutStepMessage * nat :=
  let inner_start_index := step_index in
  let (messages, step_index) := create_single_steps (repeat_steps step) step_index in
  let repeat_msg :=
    Msg.mk step_index
      (str "Repeat " ++ str_of_Z (repeat_count step) ++ str "x")
      None REPEAT_UNTIL_STEPS_CMPLT None (Some inner_start_index)
      T_OPEN (repeat_count step) None None I_ACTIVE in
  (messages ++ [repeat_msg], step_index + 1).

(** The loop of [_create_workout_steps] from a given index on. *)
Fixpoint create_steps (todo : list WorkoutStep) (step_index : nat)
  : list Msg.WorkoutStepMessage * nat :=
  match todo with
  | [] => ([], step_index)
  | step :: rest =>
      let (ms, i1) :=
        if StepType_eqb (step_type step) REPEAT
        then _create_repeat_steps step step_index
        else let (m, i) := _create_single_step step step_index in ([m], i) in
      let (ms', i2) := create_steps rest i1 in
      (ms ++ ms', i2)
  end.

(** [_create_workout_steps] *)
Definition _create_workout_steps (w : Workout) : list Msg.WorkoutStepMessage :=
  fst (create_steps (steps w) 0).

End FitWorkoutBuilder.
Import FitWorkoutBuilder.

(* ================================================================== *)
(** ** Definitions used to state the properties *)
(* ================================================================== *)

(** The contribution of one top-level step to the header count. *)
Definition records_of (step : WorkoutStep) : nat :=
  match step_type step with
  | REPEAT => 1 + List.length (repeat_steps step)
  | _ => 1
  end.

(** A plain power step, for examples. *)
Definition power_step (st : StepType) (nm : string) (seconds low high : Q)
  : WorkoutStep :=
  new_WorkoutStep st seconds POWER low high None 0 0 false None None
    (str nm) [] None 1 [].

(** A repeat block, for examples. *)
Definition repeat_of (count : Z) (inner : list WorkoutStep) : WorkoutStep :=
  new_WorkoutStep REPEAT 0 POWER 0 0 None 0 0 false None None
    (str_of_Z count ++ str "x") [] None count inner.

(** The workout [A, Repeat{3,[B,C]}, D]. *)
Definition step_A := power_step STEADY "A" 300 60 60.
Definition step_B := power_step STEADY "B" 120 110 110.
Definition step_C := power_step STEADY "C" 60 50 50.
Definition step_D := power_step RAMP "D" 300 65 40.
Definition workout_ABCD : Workout :=
  mkWorkout (str "example") [step_A; repeat_of 3 [step_B; step_C]; step_D].

(** The records of one top-level step. *)
Definition step_records (step : WorkoutStep) (i : nat)
  : list Msg.WorkoutStepMessage * nat :=
  if StepType_eqb (step_type step) REPEAT
  then _create_repeat_steps step i
  else let (m, j) := _create_single_step step i in ([m], j).






(** The record of the only step of a one-line workout text. *)
Definition encode_line (line : string) : option Msg.WorkoutStepMessage :=
  match _parse_line (str line) with
  | Ok step => Some (fst (_create_single_step step 0))
  | Raise _ => None
  end.

(** The two bounds of a record. *)
Definition bounds (m : Msg.WorkoutStepMessage) : option Z * option Z :=
  (Msg.custom_target_value_low m, Msg.custom_target_value_high m).

(** The average power of a step and the hints of its name and type. *)
Definition avg_power (s : WorkoutStep) : Q :=
  ((power_low_pct s + power_high_pct s) / 2)%Q.






(** A loop-marker record. *)
Definition is_marker (m : Msg.WorkoutStepMessage) : Prop :=
  Msg.duration_type m = REPEAT_UNTIL_STEPS_CMPLT.

(** What a record says about the loop structure: its index and, for a
    loop marker, the back-reference and the repeat count. *)
Definition loop_view (m : Msg.WorkoutStepMessage) : nat * option (option nat * Z) :=
  (Msg.message_index m,
   match Msg.duration_type m with
   | REPEAT_UNTIL_STEPS_CMPLT => Some (Msg.duration_step m, Msg.target_value m)
   | TIME => None
   end).


(** *** Reading the patterns *)

(** The text stops a run of the class [p]: it is empty or starts with a
    character outside [p]. *)
Definition stops (p : char -> bool) (s : pystr) : Prop :=
  match s with [] => True | c :: _ => p c = false end.

(** The first path of the matcher: on [u ++ rest] with the captures [g], the
    pattern [r] first offers its continuation the rest [rest] with the
    captures [g'], so that a continuation that accepts them decides the
    result. *)
Definition takes (r : regex) (u rest : pystr) (g g' : caps) : Prop :=
  forall (A : Type) (k : pystr -> caps -> option A) (v : A),
    k rest g' = Some v -> rmatch r (u ++ rest) g k = Some v.

(** The pattern has no match at the front of the text, whatever follows
    it in the pattern. *)
Definition fails (r : regex) (s : pystr) (g : caps) : Prop :=
  forall (A : Type) (k : pystr -> caps -> option A), rmatch r s g k = None.

(** No match of [r] starts inside [pre], in the text [pre ++ rest]. *)
Fixpoint no_match_in (r : regex) (pre rest : pystr) : bool :=
  match pre with
  | [] => true
  | _ :: pre' =>
      match match_here r (pre ++ rest) with
      | None => no_match_in r pre' rest
      | Some _ => false
      end
  end.

(** Declarative reading of a pattern: [matches r u g g'] when [r] matches
    the text [u] in full, turning the captures [g] into [g']. *)
Inductive matches : regex -> pystr -> caps -> caps -> Prop :=
| M_Eps : forall g, matches Eps [] g g
| M_Lit : forall c x g, lit_matches c x = true -> matches (Lit c) [x] g g
| M_Cls : forall (p : char -> bool) x g, p x = true -> matches (Cls p) [x] g g
| M_Cat : forall r1 r2 u v g g1 g2,
    matches r1 u g g1 -> matches r2 v g1 g2 -> matches (Cat r1 r2) (u ++ v) g g2
| M_Alt_l : forall r1 r2 u g g1, matches r1 u g g1 -> matches (Alt r1 r2) u g g1
| M_Alt_r : forall r1 r2 u g g1, matches r2 u g g1 -> matches (Alt r1 r2) u g g1
| M_Opt_some : forall r u g g1, matches r u g g1 -> matches (Opt r) u g g1
| M_Opt_none : forall r g, matches (Opt r) [] g g
| M_Star : forall (p : char -> bool) u g, forallb p u = true -> matches (Star p) u g g
| M_Plus : forall (p : char -> bool) x u g,
    p x = true -> forallb p u = true -> matches (Plus p) (x :: u) g g
| M_Grp : forall n r u g g1, matches r u g g1 -> matches (Grp n r) u g ((n, u) :: g1).

(** Some part of the text matches the pattern. *)
Definition has_match (r : regex) (s : pystr) : Prop :=
  exists a u b g, s = a ++ u ++ b /\ matches r u [] g.

(** *** Duration tokens *)

(** A non-empty run of digits. *)
Definition digits (s : pystr) : Prop := s <> [] /\ forallb is_digit s = true.

(** The fractional part of a number token, when it has one. *)
Definition frac_text (frac : option pystr) : pystr :=
  match frac with Some f => chr "." :: f | None => [] end.

(** The value of a number token: the integer part and, when there is a
    fractional part of [n] digits, that part over 10^n. *)
Definition decimal_value (ip : pystr) (frac : option pystr) : Q :=
  match frac with
  | None => inject_Z (digits_val ip)
  | Some f =>
      let scale := Pos.pow 10 (Pos.of_nat (List.length f)) in
      Qmake (digits_val ip * Zpos scale + digits_val f) scale
  end.

(** The three classes of units and the unit names of each, in any letter
    case. *)
Inductive unit_class : Type := Seconds | Minutes | Hours.

Definition unit_class_of (u : pystr) : option unit_class :=
  let l := lower u in
  if unit_in l ["s"; "sec"; "second"; "seconds"]%string then Some Seconds
  else if unit_in l ["m"; "min"; "minute"; "minutes"]%string then Some Minutes
  else if unit_in l ["h"; "hr"; "hour"; "hours"]%string then Some Hours
  else None.

Definition seconds_of (c : unit_class) (n : Q) : Q :=
  match c with
  | Seconds => n
  | Minutes => Qmult n 60
  | Hours => Qmult n 3600
  end.


(** *** Lines and the steps they describe *)

(** The text of a line that is left once the notes and the repeat prefix
    are taken out. *)
Definition line_body (line : pystr) : pystr :=
  snd (extract_repeat (snd (extract_notes line))).


(** The types of the steps a line can describe. *)
Definition plain_type (t : StepType) : Prop := t = STEADY \/ t = RAMP \/ t = OPEN.

(** The shape of a repeat block: one inner step, not a block itself, and a
    duration of 0. *)
Definition repeat_shape (s : WorkoutStep) : Prop :=
  step_type s = REPEAT ->
  exists inner,
    repeat_steps s = [inner] /\ step_type inner <> REPEAT
    /\ repeat_steps inner = [] /\ duration_seconds s = 0%Q.

(** The kind of step a line describes: the type of the step, or of the one
    step inside its repeat block. *)
Definition target_kind (s : WorkoutStep) : StepType :=
  match step_type s, repeat_steps s with
  | REPEAT, [inner] => step_type inner
  | t, _ => t
  end.

Definition parsed_kind (line : string) : option StepType :=
  match _parse_line (str line) with
  | Ok s => Some (target_kind s)
  | Raise _ => None
  end.


(** A step without its notes, and the outcome of a parse without any
    text of the notes: the step without notes, or the failure. *)
Fixpoint clear_notes (s : WorkoutStep) : WorkoutStep :=
  match s with
  | mkWorkoutStep st d tg pl ph hrt hl hh hp cl ch nm _ it rc rs =>
      mkWorkoutStep st d tg pl ph hrt hl hh hp cl ch nm [] it rc
        (map clear_notes rs)
  end.

Definition without_notes (r : result WorkoutStep) : option WorkoutStep :=
  match r with
  | Ok s => Some (clear_notes s)
  | Raise _ => None
  end.

(** What the line [3x 2min 100% FTP] is parsed to. *)
Definition repeat_line_step : WorkoutStep :=
  repeat_block 3
    (new_WorkoutStep STEADY 120 POWER 100 100 None 0 0 false None None
       (str "100% FTP") [] None 1 []).

(** The line with a quoted note in front: the note, then
    [ 5min 80% FTP]. *)
Definition quoted_line : pystr :=
  quote :: str "100% FTP note" ++ quote :: str " 5min 80% FTP".

(** What a parsed step says: type, seconds, power bounds, notes. *)
Definition step_view (r : result WorkoutStep)
  : option (StepType * Q * Q * Q * pystr) :=
  match r with
  | Ok s => Some (step_type s, duration_seconds s, power_low_pct s,
                  power_high_pct s, notes s)
  | Raise _ => None
  end.

(** *** The text parser and the line parser, by parts *)

(** [line.startswith('#') or line.startswith('//')] *)
Definition is_comment (line : pystr) : bool :=
  startswith (str "#") line || startswith (str "//") line.

(** The [lines] of [parse]: the non-blank lines of the stripped text, each
    stripped. *)
Definition text_lines (text : pystr) : list pystr :=
  map strip
    (filter (fun line => match strip line with [] => false | _ => true end)
       (split_on 10%N (strip text))).

(** The errors of the parser. *)
Definition no_steps_error : exn :=
  WorkoutParseError (str "No valid workout steps found").

Definition line_error (line_num : nat) (line : pystr) (e : exn) : exn :=
  WorkoutParseError
    (str "Line " ++ str_of_nat line_num ++ str ": Failed to parse '"
       ++ line ++ str "' - " ++ exn_message e).


Definition no_target_error (line : pystr) : exn :=
  WorkoutParseError (str "No power or HR target found in: " ++ line).

(** The step a line describes: the step itself, or the one inside its
    repeat block. *)
Definition described_step (s : WorkoutStep) : WorkoutStep :=
  match step_type s, repeat_steps s with
  | REPEAT, [inner] => inner
  | _, _ => s
  end.

(** The repeat count and the notes [_parse_line] reads off a line. *)
Definition line_repeat_count (line : pystr) : Z :=
  fst (extract_repeat (snd (extract_notes line))).

Definition line_notes (line : pystr) : pystr := fst (extract_notes line).

(** The intensity keyword of a line, when it has one. *)
Definition manual_intensity_of (line : pystr) : option Intensity :=
  first_keyword INTENSITY_KEYWORDS (lower (line_body line)).

(** [if manual_intensity: step.intensity = manual_intensity] *)
Definition with_manual (mi : option Intensity) (base : WorkoutStep) : WorkoutStep :=
  match mi with Some i => set_intensity (Some i) base | None => base end.


(** *** Records and totals of a workout *)

Definition is_repeat (s : WorkoutStep) : bool := StepType_eqb (step_type s) REPEAT.

(** A repeat marker is not the first record and refers to the record just
    before it. *)
Definition marker_points_back (m : Msg.WorkoutStepMessage) : Prop :=
  is_marker m ->
  1 <= Msg.message_index m
  /\ Msg.duration_step m = Some (Msg.message_index m - 1).

(** What one step adds to the total duration. *)
Definition step_total (s : WorkoutStep) : Q :=
  if is_repeat s
  then Qmult (sum_durations (repeat_steps s)) (inject_Z (repeat_count s))
  else duration_seconds s.

(** The two decimal digits of a number below 100. *)
Definition two_digits (z : Z) : pystr :=
  [Z.to_N (48 + z / 10); Z.to_N (48 + z mod 10)].


(** *** Sample texts *)

(** Three lines; the third has a duration and a cadence but no target. *)
Definition bad_text : pystr :=
  str "warmup 10min" ++ [10%N] ++ str "# main set" ++ [10%N] ++ str "5min @90rpm".

Definition good_text : pystr :=
  str "warmup 10min" ++ [10%N] ++ str "3x 2min 100% FTP" ++ [10%N]
    ++ str "cooldown 5min".

Definition sprint_line : pystr := str "30sec 150% FTP sprint".


(* ================================================================== *)
(** ** The step encoder: indices and repeat markers *)
(* ================================================================== *)

Section EncoderIndices.

Lemma single_step_index (s : WorkoutStep) (i : nat) :
  Msg.message_index (fst (_create_single_step s i)) = i
  /\ snd (_create_single_step s i) = i + 1
  /\ Msg.duration_type (fst (_create_single_step s i)) = TIME.
Proof.
  unfold _create_single_step.
  destruct (TargetType_eqb (target_type s) TARGET_OPEN || StepType_eqb (step_type s) OPEN);
    [|destruct (TargetType_eqb (target_type s) HEART_RATE);
      [destruct (hr_is_percentage s)|]]; simpl; auto.
Qed.

Lemma single_steps_indices (l : list WorkoutStep) : forall i,
  map Msg.message_index (fst (create_single_steps l i)) = seq i (List.length l)
  /\ snd (create_single_steps l i) = i + List.length l.
Proof.
  induction l as [|s l IH]; intro i; simpl.
  - split; [reflexivity | lia].
  - destruct (single_step_index s i) as (Hi & Hn & _).
    destruct (_create_single_step s i) as [m i1]; simpl in Hi, Hn; subst i1.
    destruct (IH (i + 1)) as (Hm & Hs).
    destruct (create_single_steps l (i + 1)) as [ms i2]; simpl in *.
    split; [| lia].
    rewrite Hm, Hi. replace (i + 1) with (S i) by lia. reflexivity.
Qed.

Lemma single_steps_length (l : list WorkoutStep) (i : nat) :
  List.length (fst (create_single_steps l i)) = List.length l.
Proof.
  rewrite <- (length_map Msg.message_index).
  rewrite (proj1 (single_steps_indices l i)). apply length_seq.
Qed.

Lemma repeat_steps_indices (s : WorkoutStep) (i : nat) :
  map Msg.message_index (fst (_create_repeat_steps s i))
  = seq i (List.length (repeat_steps s) + 1)
  /\ snd (_create_repeat_steps s i) = i + (List.length (repeat_steps s) + 1).
Proof.
  unfold _create_repeat_steps.
  destruct (single_steps_indices (repeat_steps s) i) as (Hm & Hs).
  destruct (create_single_steps (repeat_steps s) i) as [ms i1]; simpl in *.
  subst i1. split; [| lia].
  rewrite map_app, Hm, seq_app. simpl. reflexivity.
Qed.

Lemma step_records_indices (s : WorkoutStep) (i : nat) :
  map Msg.message_index (fst (step_records s i))
  = seq i (List.length (fst (step_records s i)))
  /\ snd (step_records s i) = i + List.length (fst (step_records s i)).
Proof.
  unfold step_records.
  destruct (StepType_eqb (step_type s) REPEAT).
  - destruct (repeat_steps_indices s i) as (Hm & Hs).
    assert (Hl : List.length (fst (_create_repeat_steps s i))
                 = List.length (repeat_steps s) + 1).
    { rewrite <- (length_map Msg.message_index), Hm. apply length_seq. }
    rewrite Hl. auto.
  - destruct (single_step_index s i) as (Hi & Hn & _).
    destruct (_create_single_step s i) as [m j]; simpl in *.
    subst j. rewrite Hi. auto.
Qed.

Lemma create_steps_cons (s : WorkoutStep) (l : list WorkoutStep) (i : nat) :
  create_steps (s :: l) i
  = (fst (step_records s i) ++ fst (create_steps l (snd (step_records s i))),
     snd (create_steps l (snd (step_records s i)))).
Proof.
  simpl. unfold step_records.
  destruct (StepType_eqb (step_type s) REPEAT).
  - destruct (_create_repeat_steps s i) as [ms i1]; simpl.
    destruct (create_steps l i1); reflexivity.
  - destruct (_create_single_step s i) as [m i1]; simpl.
    destruct (create_steps l i1); reflexivity.
Qed.

Lemma create_steps_indices (l : list WorkoutStep) : forall i,
  map Msg.message_index (fst (create_steps l i))
  = seq i (List.length (fst (create_steps l i)))
  /\ snd (create_steps l i) = i + List.length (fst (create_steps l i)).
Proof.
  induction l as [|s l IH]; intro i.
  - simpl. split; [reflexivity | lia].
  - rewrite create_steps_cons; simpl.
    destruct (step_records_indices s i) as (Hm & Hs).
    destruct (IH (snd (step_records s i))) as (Hm' & Hs').
    rewrite map_app, length_app, seq_app, Hm, Hm', Hs', Hs.
    split; [reflexivity | lia].
Qed.

Lemma create_steps_app (a b : list WorkoutStep) : forall i,
  create_steps (a ++ b) i
  = (fst (create_steps a i) ++ fst (create_steps b (snd (create_steps a i))),
     snd (create_steps b (snd (create_steps a i)))).
Proof.
  induction a as [|s a IH]; intro i.
  - simpl. destruct (create_steps b i); reflexivity.
  - rewrite <- app_comm_cons, !create_steps_cons, IH; simpl.
    rewrite app_assoc. reflexivity.
Qed.

End EncoderIndices.

(** C1. The encoder numbers the records 0, 1, 2, ... in emission order, one
    counter running through top-level and inner records; the loop marker of
    a repeat block carries the block's count and, as back-reference, the
    index at which the block's records start, which is the index of its
    first inner record; [A, Repeat{3,[B,C]}, D] gives the indices 0 to 4 with
    the marker (back to 1, count 3) at index 3. *)
Theorem encoder_indices_and_markers (w : Workout) :
  map Msg.message_index (_create_workout_steps w)
  = seq 0 (List.length (_create_workout_steps w))
  /\ (forall pre blk post,
        steps w = pre ++ blk :: post -> step_type blk = REPEAT ->
        exists before inner marker after,
          _create_workout_steps w = before ++ inner ++ marker :: after
          /\ before = fst (create_steps pre 0)
          /\ inner = fst (create_single_steps (repeat_steps blk) (List.length before))
          /\ List.length inner = List.length (repeat_steps blk)
          /\ is_marker marker
          /\ Msg.message_index marker = List.length before + List.length inner
          /\ Msg.target_value marker = repeat_count blk
          /\ Msg.duration_step marker = Some (List.length before)
          /\ (forall first, hd_error inner = Some first ->
                Msg.duration_step marker = Some (Msg.message_index first)))
  /\ (forall A B C D rep,
        steps w = [A; rep; D] ->
        step_type A <> REPEAT -> step_type D <> REPEAT ->
        step_type rep = REPEAT -> repeat_count rep = 3%Z ->
        repeat_steps rep = [B; C] ->
        map loop_view (_create_workout_steps w)
        = [(0, None); (1, None); (2, None); (3, Some (Some 1, 3%Z)); (4, None)]).
Proof.
  unfold _create_workout_steps.
  split; [apply create_steps_indices | split].
  - intros pre blk post Hw Hr.
    rewrite Hw, create_steps_app, create_steps_cons. simpl fst.
    destruct (create_steps_indices pre 0) as (_ & Hs). simpl in Hs. rewrite Hs.
    set (before := fst (create_steps pre 0)).
    unfold step_records at 1. rewrite Hr. simpl StepType_eqb. cbv iota.
    unfold _create_repeat_steps at 1.
    pose proof (single_steps_indices (repeat_steps blk) (List.length before)) as (Hm & Hn).
    pose proof (single_steps_length (repeat_steps blk) (List.length before)) as Hl.
    destruct (create_single_steps (repeat_steps blk) (List.length before))
      as [inner i1] eqn:E.
    simpl in Hm, Hn, Hl. simpl fst.
    eexists before, inner, _, _.
    split; [rewrite <- app_assoc; simpl; reflexivity |].
    split; [reflexivity |].
    split; [rewrite E; reflexivity |].
    do 5 (split; [first [reflexivity | assumption | simpl; lia] |]).
    intros first Hf. destruct inner as [|m inner']; [discriminate|].
    simpl in Hf. injection Hf as ->.
    destruct (repeat_steps blk) as [|b bs]; [discriminate|].
    simpl in Hm. injection Hm as Hm _. rewrite Hm. reflexivity.
  - intros A B C D rep Hw HA HD Hr Hc Hi.
    rewrite Hw. simpl.
    destruct (step_type A) eqn:EA; try congruence;
      destruct (step_type D) eqn:ED; try congruence;
      rewrite Hr; simpl; unfold _create_repeat_steps; rewrite Hi; simpl;
      rewrite Hc;
      repeat match goal with
             | |- context [_create_single_step ?s ?i] =>
                 let H := fresh in
                 pose proof (single_step_index s i) as H;
                 destruct (_create_single_step s i) as [? ?]; simpl in H;
                 destruct H as (? & ? & ?); subst
             end;
      simpl; unfold loop_view; simpl;
      repeat match goal with
             | H : Msg.duration_type _ = TIME |- _ => rewrite H; clear H
             | H : Msg.message_index _ = _ |- _ => rewrite H; clear H
             end; reflexivity.
Qed.

(** The theorem at [A, Repeat{3,[B,C]}, D]: the marker of the block and the
    index sequence. *)
Lemma encoder_indices_and_markers_witness :
  (exists marker,
      In marker (_create_workout_steps workout_ABCD)
      /\ is_marker marker
      /\ Msg.message_index marker = 3
      /\ Msg.duration_step marker = Some 1
      /\ Msg.target_value marker = 3%Z)
  /\ map loop_view (_create_workout_steps workout_ABCD)
     = [(0, None); (1, None); (2, None); (3, Some (Some 1, 3%Z)); (4, None)].
Proof.
  split.
  - destruct (proj1 (proj2 (encoder_indices_and_markers workout_ABCD))
                [step_A] (repeat_of 3 [step_B; step_C]) [step_D]
                eq_refl eq_refl)
      as (before & inner & marker & after & Heq & Hb & Hi & Hl & Hm & Hx & Hc & Hd & _).
    exists marker. rewrite Heq. subst before.
    split; [apply in_or_app; right; apply in_or_app; right; left; reflexivity |].
    split; [exact Hm |].
    split; [rewrite Hx, Hl; reflexivity |].
    split; [exact Hd | exact Hc].
  - apply (proj2 (proj2 (encoder_indices_and_markers workout_ABCD))
             step_A step_B step_C step_D (repeat_of 3 [step_B; step_C]));
      solve [reflexivity | discriminate].
Defined.

(* ================================================================== *)
(** ** The header count *)
(* ================================================================== *)

Lemma count_fold (l : list WorkoutStep) : forall acc,
  fold_left
    (fun count step =>
       if StepType_eqb (step_type step) REPEAT
       then count + (1 + List.length (repeat_steps step))
       else count + 1) l acc
  = acc + list_sum (map records_of l).
Proof.
  induction l as [|s l IH]; intro acc; simpl.
  - lia.
  - rewrite IH. unfold records_of. destruct (step_type s); simpl; lia.
Qed.

Lemma step_records_length (s : WorkoutStep) (i : nat) :
  List.length (fst (step_records s i)) = records_of s.
Proof.
  unfold step_records, records_of.
  destruct (step_type s) eqn:E; simpl;
    try (destruct (_create_single_step s i); reflexivity).
  unfold _create_repeat_steps.
  pose proof (single_steps_length (repeat_steps s) i) as Hl.
  destruct (create_single_steps (repeat_steps s) i); simpl in *.
  rewrite length_app, Hl. simpl. lia.
Qed.

Lemma create_steps_length (l : list WorkoutStep) : forall i,
  List.length (fst (create_steps l i)) = list_sum (map records_of l).
Proof.
  induction l as [|s l IH]; intro i.
  - reflexivity.
  - rewrite create_steps_cons. simpl.
    rewrite length_app, step_records_length, IH. reflexivity.
Qed.

(** C5. The step count of the header is the sum, over the top-level steps,
    of 1 for a step that is not a repeat block and of 1 + the number of inner
    steps for a repeat block; it is the number of records emitted, and for
    [A, Repeat{3,[B,C]}, D] it is 5. *)
Theorem header_step_count (w : Workout) :
  num_valid_steps (_create_workout_message w) = list_sum (map records_of (steps w))
  /\ num_valid_steps (_create_workout_message w)
     = List.length (_create_workout_steps w)
  /\ num_valid_steps (_create_workout_message workout_ABCD) = 5.
Proof.
  unfold _create_workout_message, _count_valid_steps, _create_workout_steps.
  simpl num_valid_steps.
  rewrite count_fold, create_steps_length.
  repeat split; reflexivity.
Qed.

(* ================================================================== *)
(** ** Target encoding *)
(* ================================================================== *)




Lemma StepType_eqb_eq (a b : StepType) : StepType_eqb a b = true <-> a = b.
Proof. destruct a, b; simpl; split; intro H; congruence. Qed.


Lemma StepType_eqb_neq (a b : StepType) : StepType_eqb a b = false <-> a <> b.
Proof. destruct a, b; simpl; split; intro H; congruence. Qed.








(* ================================================================== *)
(** ** Intensity resolution *)
(* ================================================================== *)











(* ================================================================== *)
(** ** The matcher: first path, soundness and completeness *)
(* ================================================================== *)

Lemma star_m_greedy (A : Type) (p : char -> bool) (xs rest : pystr)
      (k : pystr -> option A) (v : A) :
  forallb p xs = true -> stops p rest -> k rest = Some v ->
  star_m p (xs ++ rest) k = Some v.
Proof.
  intros Hxs Hst Hk. induction xs as [|x xs IH]; simpl in *.
  - destruct rest as [|c rest]; simpl; [assumption|]. simpl in Hst. rewrite Hst. assumption.
  - apply andb_true_iff in Hxs as [Hx Hxs]. rewrite Hx, (IH Hxs). reflexivity.
Qed.

Lemma firstn_consumed (A : Type) (u rest : list A) :
  firstn (List.length (u ++ rest) - List.length rest) (u ++ rest) = u.
Proof.
  rewrite length_app, Nat.add_sub.
  rewrite firstn_app, Nat.sub_diag, firstn_all. simpl. apply app_nil_r.
Qed.

Lemma rmatch_Star_greedy (A : Type) p xs rest g (k : pystr -> caps -> option A) v :
  forallb p xs = true -> stops p rest -> k rest g = Some v ->
  rmatch (Star p) (xs ++ rest) g k = Some v.
Proof. intros. simpl. apply star_m_greedy; assumption. Qed.

Lemma rmatch_Plus_greedy (A : Type) p x xs rest g (k : pystr -> caps -> option A) v :
  p x = true -> forallb p xs = true -> stops p rest -> k rest g = Some v ->
  rmatch (Plus p) (x :: xs ++ rest) g k = Some v.
Proof. intros Hx **. simpl. rewrite Hx. apply star_m_greedy; assumption. Qed.

Section Eqns.
Variable A : Type.
Implicit Types (k : pystr -> caps -> option A).
Lemma rmatch_Cat r1 r2 s g k :
  rmatch (Cat r1 r2) s g k = rmatch r1 s g (fun s' g' => rmatch r2 s' g' k).
Proof. reflexivity. Qed.
Lemma rmatch_Grp n r s g k :
  rmatch (Grp n r) s g k
  = rmatch r s g (fun s' g' => k s' ((n, firstn (List.length s - List.length s') s) :: g')).
Proof. reflexivity. Qed.
Lemma rmatch_Lit c x s g k :
  rmatch (Lit c) (x :: s) g k = if lit_matches c x then k s g else None.
Proof. reflexivity. Qed.
Lemma rmatch_Lit_nil c g k : rmatch (Lit c) [] g k = None.
Proof. reflexivity. Qed.
Lemma rmatch_Eps s g k : rmatch Eps s g k = k s g.
Proof. reflexivity. Qed.
End Eqns.

Lemma takes_Eps rest g : takes Eps [] rest g g.
Proof. intros A k v Hk. exact Hk. Qed.

Lemma takes_Lit c x rest g : lit_matches c x = true -> takes (Lit c) [x] rest g g.
Proof. intros H A k v Hk. simpl. rewrite H. exact Hk. Qed.

Lemma takes_Cls p x rest g : p x = true -> takes (Cls p) [x] rest g g.
Proof. intros H A k v Hk. simpl. rewrite H. exact Hk. Qed.

Lemma takes_Cat r1 r2 u v rest g g1 g2 :
  takes r1 u (v ++ rest) g g1 -> takes r2 v rest g1 g2 ->
  takes (Cat r1 r2) (u ++ v) rest g g2.
Proof.
  intros H1 H2 A k x Hk. rewrite rmatch_Cat, <- app_assoc.
  apply H1. apply H2. exact Hk.
Qed.

Lemma takes_Grp n r u rest g g1 :
  takes r u rest g g1 -> takes (Grp n r) u rest g ((n, u) :: g1).
Proof.
  intros H A k x Hk. rewrite rmatch_Grp. apply H.
  rewrite firstn_consumed. exact Hk.
Qed.

Lemma takes_Star p u rest g :
  forallb p u = true -> stops p rest -> takes (Star p) u rest g g.
Proof. intros Hu Hs A k v Hk. apply rmatch_Star_greedy; assumption. Qed.

Lemma takes_Plus p u rest g :
  u <> [] -> forallb p u = true -> stops p rest -> takes (Plus p) u rest g g.
Proof.
  intros Hn Hu Hs A k v Hk. destruct u as [|x u]; [congruence|].
  simpl in Hu. apply andb_true_iff in Hu as [Hx Hu].
  rewrite <- app_comm_cons. apply rmatch_Plus_greedy; assumption.
Qed.








Lemma fails_Grp n r s g : fails r s g -> fails (Grp n r) s g.
Proof. intros H A k. rewrite rmatch_Grp. apply H. Qed.

Lemma fails_Plus p x s g : p x = false -> fails (Plus p) (x :: s) g.
Proof. intros H A k. simpl. rewrite H. reflexivity. Qed.

Lemma fails_Plus_nil p g : fails (Plus p) [] g.
Proof. intros A k. reflexivity. Qed.

Lemma takes_match_here r u rest g :
  takes r u rest [] g -> match_here r (u ++ rest) = Some (List.length u, g).
Proof.
  intro H. unfold match_here. apply H.
  rewrite length_app, Nat.add_sub. reflexivity.
Qed.


Lemma search_from_skip r pre rest : forall pos,
  no_match_in r pre rest = true ->
  search_from r pos (pre ++ rest) = search_from r (pos + List.length pre) rest.
Proof.
  induction pre as [|c pre IH]; intros pos H.
  - simpl. rewrite Nat.add_0_r. reflexivity.
  - cbn [no_match_in] in H. rewrite <- app_comm_cons in *.
    cbn [search_from].
    destruct (match_here r (c :: pre ++ rest)) as [[n g]|]; [discriminate|].
    rewrite (IH (S pos) H). f_equal. simpl. lia.
Qed.

Lemma char_eqb_eq a b : char_eqb a b = true <-> a = b.
Proof. apply N.eqb_eq. Qed.

Lemma lower_char_inv (c l : char) :
  lower_char c = l -> c = l \/ (c + 32 = l /\ 65 <= c /\ c <= 90)%N.
Proof.
  unfold lower_char.
  destruct (N.leb_spec 65 c), (N.leb_spec c 90); simpl; intros <-; auto.
Qed.

Lemma lit_matches_lower (l c : char) x :
  lower_char c = x -> lit_matches l c = N.eqb x (lower_char l).
Proof. intros <-. reflexivity. Qed.


Lemma space_not_digit w : is_space w = true -> is_digit w = false.
Proof.
  intro H. destruct (is_digit w) eqn:E; [| reflexivity].
  unfold is_digit in E. apply andb_true_iff in E as [E1 E2].
  apply N.leb_le in E1, E2.
  assert (w = 48 \/ w = 49 \/ w = 50 \/ w = 51 \/ w = 52 \/ w = 53 \/ w = 54
          \/ w = 55 \/ w = 56 \/ w = 57)%N as C by lia.
  repeat (destruct C as [-> | C]; [discriminate H |]). subst. discriminate H.
Qed.




Lemma pystr_eqb_eq a : forall b, pystr_eqb a b = true <-> a = b.
Proof.
  induction a as [|x a IH]; destruct b as [|y b]; simpl; split; intro H;
    try reflexivity; try discriminate.
  - apply andb_true_iff in H as [H1 H2].
    apply char_eqb_eq in H1. apply IH in H2. congruence.
  - injection H as -> ->. apply andb_true_iff. split.
    + apply char_eqb_eq. reflexivity.
    + apply IH. reflexivity.
Qed.



Lemma search_from_hit r s pos n g :
  match_here r s = Some (n, g) ->
  search_from r pos s = Some (mkMatch pos (pos + n) g).
Proof. intro H. destruct s; simpl; rewrite H; reflexivity. Qed.

Lemma split_dot_digits ip : forall tail,
  forallb is_digit ip = true ->
  split_dot (ip ++ tail) = (ip ++ fst (split_dot tail), snd (split_dot tail)).
Proof.
  induction ip as [|c ip IH]; intros tail H.
  - simpl. destruct (split_dot tail); reflexivity.
  - simpl in H. apply andb_true_iff in H as [Hc H].
    cbn [app split_dot].
    assert (Hd : char_eqb c (chr ".") = false).
    { unfold char_eqb. apply N.eqb_neq. intros ->. discriminate Hc. }
    rewrite Hd, (IH tail H). reflexivity.
Qed.

Lemma float_of_str_decimal ip frac :
  forallb is_digit ip = true ->
  float_of_str (ip ++ frac_text frac) = decimal_value ip frac.
Proof.
  intro H. unfold float_of_str, decimal_value.
  rewrite (@split_dot_digits ip (frac_text frac) H).
  destruct frac as [f|]; simpl; rewrite app_nil_r; reflexivity.
Qed.

(** A prefix without digit holds no start of a duration match. *)
Lemma no_digit_before pre rest :
  forallb (fun c => negb (is_digit c)) pre = true ->
  no_match_in DURATION_PATTERN pre rest = true.
Proof.
  induction pre as [|c pre IH]; intro H; [reflexivity |].
  simpl in H. apply andb_true_iff in H as [Hc H].
  apply negb_true_iff in Hc.
  cbn [no_match_in]. rewrite <- app_comm_cons.
  unfold match_here, DURATION_PATTERN, number. cbn [cats rmatch].
  rewrite Hc. exact (IH H).
Qed.



Lemma star_m_sound (A : Type) p s (k : pystr -> option A) v :
  star_m p s k = Some v ->
  exists u s', s = u ++ s' /\ forallb p u = true /\ k s' = Some v.
Proof.
  induction s as [|c s IH]; simpl; intro H.
  - exists [], []. auto.
  - destruct (p c) eqn:Hc.
    + destruct (star_m p s k) as [w|] eqn:E.
      * injection H as ->. destruct (IH eq_refl) as (u & s' & -> & Hu & Hk).
        exists (c :: u), s'. simpl. rewrite Hc, Hu. auto.
      * exists [], (c :: s). auto.
    + exists [], (c :: s). auto.
Qed.

Lemma star_m_complete (A : Type) p u s' (k : pystr -> option A) :
  forallb p u = true -> k s' <> None -> star_m p (u ++ s') k <> None.
Proof.
  intros Hu Hk. induction u as [|x u IH]; simpl in *.
  - destruct s' as [|c s']; [assumption|]. simpl.
    destruct (p c); [| assumption].
    destruct (star_m p s' k); [discriminate | assumption].
  - apply andb_true_iff in Hu as [Hx Hu]. rewrite Hx.
    specialize (IH Hu). destruct (star_m p (u ++ s') k); [discriminate | contradiction].
Qed.

Lemma rmatch_sound (A : Type) r : forall s g (k : pystr -> caps -> option A) v,
  rmatch r s g k = Some v ->
  exists u s' g', s = u ++ s' /\ matches r u g g' /\ k s' g' = Some v.
Proof.
  induction r as [|c|p|r1 IH1 r2 IH2|r1 IH1 r2 IH2|r IH|p|p|n r IH];
    intros s g k v H; simpl in H.
  - exists [], s, g. repeat split; [constructor | assumption].
  - destruct s as [|x s]; [discriminate|].
    destruct (lit_matches c x) eqn:E; [| discriminate].
    exists [x], s, g. repeat split; [constructor; assumption | assumption].
  - destruct s as [|x s]; [discriminate|].
    destruct (p x) eqn:E; [| discriminate].
    exists [x], s, g. repeat split; [constructor; assumption | assumption].
  - apply IH1 in H as (u & s1 & g1 & -> & Hu & H).
    apply IH2 in H as (w & s2 & g2 & -> & Hw & H).
    exists (u ++ w), s2, g2. rewrite app_assoc.
    repeat split; [econstructor; eassumption | assumption].
  - destruct (rmatch r1 s g k) as [w|] eqn:E.
    + injection H as ->. apply IH1 in E as (u & s' & g' & -> & Hu & Hk).
      exists u, s', g'. repeat split; [apply M_Alt_l; assumption | assumption].
    + apply IH2 in H as (u & s' & g' & -> & Hu & Hk).
      exists u, s', g'. repeat split; [apply M_Alt_r; assumption | assumption].
  - destruct (rmatch r s g k) as [w|] eqn:E.
    + injection H as ->. apply IH in E as (u & s' & g' & -> & Hu & Hk).
      exists u, s', g'. repeat split; [apply M_Opt_some; assumption | assumption].
    + exists [], s, g. repeat split; [apply M_Opt_none | assumption].
  - apply star_m_sound in H as (u & s' & -> & Hu & Hk).
    exists u, s', g. repeat split; [constructor; assumption | assumption].
  - destruct s as [|x s]; [discriminate|].
    destruct (p x) eqn:E; [| discriminate].
    apply star_m_sound in H as (u & s' & -> & Hu & Hk).
    exists (x :: u), s', g. repeat split; [constructor; assumption | assumption].
  - apply IH in H as (u & s' & g' & -> & Hu & Hk).
    rewrite firstn_consumed in Hk.
    exists u, s', ((n, u) :: g'). repeat split; [constructor; assumption | exact Hk].
Qed.

Lemma rmatch_complete (A : Type) r u g g1 :
  matches r u g g1 ->
  forall h s' (k : pystr -> caps -> option A),
    (forall g', k s' g' <> None) -> rmatch r (u ++ s') h k <> None.
Proof.
  induction 1; intros h s' k Hk; simpl.
  - apply Hk.
  - rewrite H. apply Hk.
  - rewrite H. apply Hk.
  - rewrite <- app_assoc. apply IHmatches1. intro g'. apply IHmatches2. assumption.
  - specialize (IHmatches h s' k Hk).
    destruct (rmatch r1 (u ++ s') h k); [discriminate | contradiction].
  - destruct (rmatch r1 (u ++ s') h k); [discriminate |].
    apply IHmatches. assumption.
  - specialize (IHmatches h s' k Hk).
    destruct (rmatch r (u ++ s') h k); [discriminate | contradiction].
  - destruct (rmatch r s' h k); [discriminate | apply Hk].
  - apply star_m_complete; [assumption | apply Hk].
  - rewrite H. apply star_m_complete; [assumption | apply Hk].
  - apply IHmatches. intro g'. apply Hk.
Qed.

Lemma match_here_sound r s n g :
  match_here r s = Some (n, g) ->
  exists u s', s = u ++ s' /\ n = List.length u /\ matches r u [] g.
Proof.
  unfold match_here. intro H.
  apply rmatch_sound in H as (u & s' & g' & -> & Hu & Hk).
  injection Hk as <- <-. exists u, s'.
  rewrite length_app, Nat.add_sub. auto.
Qed.

Lemma match_here_complete r u s' g :
  matches r u [] g -> match_here r (u ++ s') <> None.
Proof.
  intro H. unfold match_here.
  apply (rmatch_complete H). intros g'. discriminate.
Qed.

Lemma search_from_sound r s : forall pos m,
  search_from r pos s = Some m ->
  exists a u b, s = a ++ u ++ b /\ matches r u [] (m_caps m)
                /\ m_start m = pos + List.length a
                /\ m_end m = m_start m + List.length u
                /\ no_match_in r a (u ++ b) = true.
Proof.
  induction s as [|c s IH]; intros pos m H; simpl in H.
  - destruct (match_here r []) as [[n g]|] eqn:E; [| discriminate].
    injection H as <-. apply match_here_sound in E as (u & s' & Hs & -> & Hu).
    exists [], u, s'. simpl. repeat split; auto.
  - destruct (match_here r (c :: s)) as [[n g]|] eqn:E.
    + injection H as <-. apply match_here_sound in E as (u & s' & Hs & -> & Hu).
      exists [], u, s'. simpl. repeat split; auto.
    + apply IH in H as (a & u & b & -> & Hu & Hst & Hen & Hno).
      exists (c :: a), u, b. simpl. rewrite E.
      repeat split; auto. rewrite Hst. lia.
Qed.

Lemma search_from_iff r s : forall pos,
  search_from r pos s <> None <-> has_match r s.
Proof.
  intro pos. split.
  - destruct (search_from r pos s) as [m|] eqn:E; [| congruence].
    intros _. apply search_from_sound in E as (a & u & b & Hs & Hu & _).
    exists a, u, b, (m_caps m). auto.
  - intros (a & u & b & g & -> & Hu). revert pos.
    induction a as [|c a IH]; intro pos.
    + pose proof (@match_here_complete _ _ b _ Hu) as Hm. simpl app.
      destruct (u ++ b); simpl;
        destruct (match_here r _) as [[n g']|]; congruence.
    + simpl. destruct (match_here r _) as [[n g']|]; [discriminate | apply IH].
Qed.

Lemma search_none_iff r s : search r s = None <-> ~ has_match r s.
Proof.
  unfold search. rewrite <- (search_from_iff r s 0).
  destruct (search_from r 0 s); split; intro H; try congruence.
  exfalso. apply H. discriminate.
Qed.

Lemma search_some_iff r s : search r s <> None <-> has_match r s.
Proof. apply search_from_iff. Qed.

Lemma matches_Cat_inv r1 r2 w g g2 :
  matches (Cat r1 r2) w g g2 ->
  exists u v g1, w = u ++ v /\ matches r1 u g g1 /\ matches r2 v g1 g2.
Proof. intro H. inversion H; subst. eauto 7. Qed.

Lemma matches_Grp_inv n r u g g' :
  matches (Grp n r) u g g' -> exists g1, g' = (n, u) :: g1 /\ matches r u g g1.
Proof. intro H. inversion H; subst. eauto. Qed.


Lemma range_is_ramp u g g' :
  matches POWER_RANGE_PATTERN u g g' -> matches POWER_RAMP_PATTERN u g g'.
Proof.
  unfold POWER_RANGE_PATTERN, POWER_RAMP_PATTERN, pct_ftp. cbn [cats app].
  intro H.
  apply matches_Cat_inv in H as (n1 & t1 & g1 & -> & H1 & H).
  apply matches_Cat_inv in H as (w1 & t2 & g2 & -> & H2 & H).
  eapply M_Cat; [exact H1 |].
  eapply M_Cat; [exact H2 |].
  change t2 with ([] ++ [] ++ t2).
  eapply M_Cat; [apply M_Opt_none |].
  eapply M_Cat; [apply M_Star; reflexivity | exact H].
Qed.


Lemma has_match_range_ramp s :
  has_match POWER_RANGE_PATTERN s -> has_match POWER_RAMP_PATTERN s.
Proof.
  intros (a & u & b & g & -> & H). exists a, u, b, g.
  split; [reflexivity | apply range_is_ramp; exact H].
Qed.


Lemma lit_matches_eq c x : lit_matches c x = true -> lower_char x = lower_char c.
Proof. unfold lit_matches. apply char_eqb_eq. Qed.

Ltac inv_matches :=
  repeat match goal with
         | H : matches (Cat _ _) _ _ _ |- _ => inversion H; subst; clear H
         | H : matches (Alt _ _) _ _ _ |- _ => inversion H; subst; clear H
         | H : matches (Opt _) _ _ _ |- _ => inversion H; subst; clear H
         | H : matches (Lit _) _ _ _ |- _ => inversion H; subst; clear H
         | H : matches (Grp _ _) _ _ _ |- _ => inversion H; subst; clear H
         | H : matches Eps _ _ _ |- _ => inversion H; subst; clear H
         end.

Lemma unit_alts_class u g g' :
  matches unit_alts u g g' -> unit_class_of u <> None.
Proof.
  unfold unit_alts. cbn [alts word lits str list_ascii_of_string map].
  intro H. inv_matches;
    repeat match goal with
           | H : lit_matches _ _ = true |- _ =>
               apply lit_matches_eq in H;
               match type of H with
               | _ = ?rhs => let v := eval vm_compute in rhs in change rhs with v in H
               end
           end;
    unfold unit_class_of; cbn [app lower map];
    repeat match goal with
           | H : lower_char _ = _ |- _ => rewrite H; clear H
           end;
    vm_compute; discriminate.
Qed.

Lemma parse_duration_eq line :
  _parse_duration line
  = match search DURATION_PATTERN line with
    | None => None
    | Some m =>
        option_map (fun cls => seconds_of cls (float_of_str (group_str 1 m)))
                   (unit_class_of (group_str 2 m))
    end.
Proof.
  unfold _parse_duration, unit_class_of.
  destruct (search DURATION_PATTERN line) as [m|]; [| reflexivity].
  destruct (unit_in _ ["s"; "sec"; "second"; "seconds"]%string); [reflexivity|].
  destruct (unit_in _ ["m"; "min"; "minute"; "minutes"]%string); [reflexivity|].
  destruct (unit_in _ ["h"; "hr"; "hour"; "hours"]%string); reflexivity.
Qed.






Lemma special_step_plain t d n s :
  _create_special_step t d n = Ok s ->
  plain_type (step_type s) /\ repeat_steps s = []
  /\ (step_type s = OPEN -> target_type s = TARGET_OPEN).
Proof.
  unfold plain_type.
  destruct t; simpl; intro H; try discriminate; injection H as <-; simpl;
    repeat split; auto; discriminate.
Qed.

Lemma parse_step_shape o n rc body s :
  parse_step o n rc body = Ok s ->
  exists mi base,
    s = finish_step mi rc base /\ plain_type (step_type base)
    /\ repeat_steps base = []
    /\ (step_type base = OPEN -> target_type base = TARGET_OPEN).
Proof.
  unfold parse_step.
  destruct (first_keyword SPECIAL_KEYWORDS (lower body)) as [t|].
  - destruct (_parse_duration body) as [d|]; [| discriminate].
    destruct (_create_special_step t d n) as [base|e] eqn:E; [| discriminate].
    intro H. injection H as <-. apply special_step_plain in E.
    eexists _, base. split; [reflexivity | exact E].
  - destruct (_parse_duration body) as [d|]; [| discriminate].
    destruct (parse_cadence body) as [cl ch].
    destruct (parse_hr body) as [[[hl hh] hp] ht].
    destruct (search POWER_RAMP_PATTERN body) as [m1|] eqn:E1.
    + intro H. injection H as <-. eexists _, _.
      split; [reflexivity |]. unfold plain_type. simpl.
      repeat split; auto; discriminate.
    + destruct (search POWER_RANGE_PATTERN body) as [m2|] eqn:E2.
      * exfalso. apply search_none_iff in E1. apply E1.
        apply has_match_range_ramp, search_some_iff. congruence.
      * destruct (search POWER_STEADY_PATTERN body) as [m3|].
        -- intro H. injection H as <-. eexists _, _.
           split; [reflexivity |]. unfold plain_type. simpl.
           repeat split; auto; discriminate.
        -- destruct ht as [t|]; [| discriminate].
           intro H. injection H as <-. eexists _, _.
           split; [reflexivity |]. unfold plain_type. simpl.
           repeat split; auto; discriminate.
Qed.

Lemma finish_step_cases mi rc base :
  exists base',
    step_type base' = step_type base /\ repeat_steps base' = repeat_steps base
    /\ target_type base' = target_type base
    /\ ((rc > 1)%Z /\ finish_step mi rc base = repeat_block rc base'
        \/ (rc <= 1)%Z /\ finish_step mi rc base = base').
Proof.
  unfold finish_step.
  exists (match mi with Some i => set_intensity (Some i) base | None => base end).
  split; [destruct mi; reflexivity |].
  split; [destruct mi; reflexivity |].
  split; [destruct mi; reflexivity |].
  destruct (Z.gtb_spec rc 1); [left | right]; split; auto; lia.
Qed.

Lemma plain_not_repeat t : plain_type t -> t <> REPEAT.
Proof. intros [-> | [-> | ->]]; discriminate. Qed.

Lemma parse_line_shape line s :
  _parse_line line = Ok s ->
  exists rc base,
    plain_type (step_type base) /\ repeat_steps base = []
    /\ (step_type base = OPEN -> target_type base = TARGET_OPEN)
    /\ ((rc > 1)%Z /\ s = repeat_block rc base \/ s = base).
Proof.
  unfold _parse_line.
  destruct (extract_notes line) as [notes l1].
  destruct (extract_repeat l1) as [rc body].
  intro H. apply parse_step_shape in H as (mi & base & -> & Hp & Hr & Ho).
  destruct (finish_step_cases mi rc base)
    as (base' & Ht & Hs & Hg & [[Hrc ->] | [_ ->]]);
    exists rc, base'; rewrite Ht, Hs, Hg;
    (split; [exact Hp | split; [exact Hr | split; [exact Ho |]]]);
    [left; split; [exact Hrc | reflexivity] | right; reflexivity].
Qed.

(** The steps of the parser with a heart-rate or a power target are not of
    type Open: in a parsed step, and in the step inside a parsed repeat
    block, the type Open comes with the open target. *)
Lemma parsed_open_step_has_open_target line s :
  _parse_line line = Ok s ->
  Forall (fun i => step_type i = OPEN -> target_type i = TARGET_OPEN)
         (s :: repeat_steps s).
Proof.
  intro H. apply parse_line_shape in H as (rc & base & Hp & Hr & Ho & [[_ ->] | ->]).
  - constructor; [discriminate |]. simpl. constructor; [exact Ho | constructor].
  - rewrite Hr. constructor; [exact Ho | constructor].
Qed.

Lemma parse_line_repeat_shape line s : _parse_line line = Ok s -> repeat_shape s.
Proof.
  intro H. apply parse_line_shape in H as (rc & base & Hp & Hr & _ & [[_ ->] | ->]).
  - intros _. exists base.
    split; [reflexivity |]. split; [apply plain_not_repeat, Hp |].
    split; [assumption | reflexivity].
  - intro E. exfalso. exact (plain_not_repeat Hp E).
Qed.

Lemma parse_lines_Forall (P : WorkoutStep -> Prop) :
  (forall line s, _parse_line line = Ok s -> P s) ->
  forall lines n steps, parse_lines n lines = Ok steps -> Forall P steps.
Proof.
  intros HP. induction lines as [|line lines IH]; intros n steps H;
    cbn [parse_lines] in H.
  - injection H as <-. constructor.
  - destruct (startswith (str "#") line || startswith (str "//") line).
    + eapply IH; eassumption.
    + destruct (_parse_line line) as [s|e] eqn:E; [| discriminate].
      destruct (parse_lines (S n) lines) as [ss|e] eqn:E'; [| discriminate].
      injection H as <-. constructor; [eapply HP | eapply IH]; eassumption.
Qed.

Lemma parse_Forall (P : WorkoutStep -> Prop) :
  (forall line s, _parse_line line = Ok s -> P s) ->
  forall text steps, parse text = Ok steps -> Forall P steps.
Proof.
  intros HP text steps. unfold parse.
  destruct (parse_lines 1 _) as [ss|e] eqn:E; [| discriminate].
  destruct ss as [|s ss]; [discriminate|].
  intro H. injection H as <-. eapply parse_lines_Forall; eassumption.
Qed.

(** C10. A repeat block the parser produces, from one line or from a whole
    text, holds exactly one inner step, which is not a repeat block (and has
    no inner steps of its own), and its duration field is 0. *)
Theorem parser_repeat_steps :
  (forall line step, _parse_line line = Ok step -> repeat_shape step)
  /\ (forall text steps, parse text = Ok steps -> Forall repeat_shape steps).
Proof.
  split; [exact parse_line_repeat_shape |].
  apply parse_Forall. exact parse_line_repeat_shape.
Qed.

(** The theorem at the line [3x 2min 100% FTP]. *)
Lemma parser_repeat_steps_witness :
  exists inner,
    repeat_steps repeat_line_step = [inner] /\ step_type inner <> REPEAT
    /\ repeat_steps inner = [] /\ duration_seconds repeat_line_step = 0%Q.
Proof.
  apply (proj1 parser_repeat_steps (str "3x 2min 100% FTP") repeat_line_step).
  - vm_compute. reflexivity.
  - reflexivity.
Defined.

(* ================================================================== *)
(** ** Quoted notes *)
(* ================================================================== *)

Lemma quote_lit x : lit_matches quote x = char_eqb x quote.
Proof.
  unfold lit_matches, char_eqb. change (lower_char quote) with quote.
  destruct (N.eqb_spec x quote) as [-> | Hn]; [reflexivity|].
  apply N.eqb_neq. intro E. apply lower_char_inv in E.
  unfold quote in *. destruct E as [E | (E & E1 & _)]; [congruence | lia].
Qed.

Lemma takes_notes body rest :
  body <> [] -> forallb not_quote body = true ->
  takes NOTES_PATTERN (([quote] ++ body) ++ [quote]) rest [] [(1, body)].
Proof.
  intros Hne Hb. unfold NOTES_PATTERN. cbn [cats].
  rewrite <- app_assoc.
  eapply takes_Cat; [apply takes_Lit; rewrite quote_lit; reflexivity |].
  eapply takes_Cat.
  - apply takes_Grp, takes_Plus; [assumption | assumption | reflexivity].
  - apply takes_Lit. rewrite quote_lit. reflexivity.
Qed.

Lemma firstn_length_app (A : Type) (a b : list A) : firstn (List.length a) (a ++ b) = a.
Proof. induction a as [|x a IH]; simpl; [reflexivity | rewrite IH; reflexivity]. Qed.

Lemma skipn_length_app (A : Type) (a b : list A) : skipn (List.length a) (a ++ b) = b.
Proof. induction a as [|x a IH]; simpl; [reflexivity | exact IH]. Qed.

Lemma extract_notes_quoted pre body post :
  body <> [] -> forallb not_quote body = true ->
  no_match_in NOTES_PATTERN pre (quote :: body ++ quote :: post) = true ->
  extract_notes (pre ++ quote :: body ++ quote :: post) = (body, pre ++ post).
Proof.
  intros Hne Hb Hpre. unfold extract_notes, search.
  rewrite (@search_from_skip _ _ _ 0 Hpre).
  pose proof (takes_match_here (@takes_notes body post Hne Hb)) as Hm.
  rewrite <- !app_assoc in Hm. simpl app in Hm.
  rewrite (@search_from_hit _ _ _ _ _ Hm).
  unfold group_str, group, slice_to, slice_from.
  cbn [m_caps m_start m_end lookup Nat.eqb Nat.add].
  rewrite firstn_length_app.
  replace (List.length pre + List.length (quote :: body ++ [quote]))
    with (List.length (pre ++ quote :: body ++ [quote]))
    by (rewrite length_app; reflexivity).
  replace (pre ++ quote :: body ++ quote :: post)
    with ((pre ++ quote :: body ++ [quote]) ++ post)
    by (rewrite <- app_assoc; simpl; rewrite <- app_assoc; reflexivity).
  rewrite skipn_length_app. reflexivity.
Qed.

(** A prefix without quotation mark holds no start of a quoted run. *)
Lemma no_quote_before pre rest :
  forallb not_quote pre = true -> no_match_in NOTES_PATTERN pre rest = true.
Proof.
  induction pre as [|c pre IH]; intro H; [reflexivity |].
  simpl in H. apply andb_true_iff in H as [Hc H].
  cbn [no_match_in]. rewrite <- app_comm_cons.
  unfold match_here, NOTES_PATTERN. cbn [cats rmatch].
  rewrite quote_lit. unfold not_quote, quote in *. unfold char_eqb.
  apply negb_true_iff in Hc. rewrite Hc. exact (IH H).
Qed.

Lemma parse_step_without_notes o1 o2 n1 n2 rc body :
  n1 <> [] -> n2 <> [] ->
  without_notes (parse_step o1 n1 rc body) = without_notes (parse_step o2 n2 rc body).
Proof.
  intros H1 H2.
  destruct n1 as [|x1 n1]; [congruence|]. destruct n2 as [|x2 n2]; [congruence|].
  unfold parse_step.
  destruct (first_keyword SPECIAL_KEYWORDS (lower body)) as [t|].
  - destruct (_parse_duration body) as [d|]; [| reflexivity].
    unfold finish_step.
    destruct t; cbn [_create_special_step]; try reflexivity;
      destruct (first_keyword INTENSITY_KEYWORDS (lower body));
      destruct (rc >? 1)%Z; reflexivity.
  - destruct (_parse_duration body) as [d|]; [| reflexivity].
    destruct (parse_cadence body) as [cl ch].
    destruct (parse_hr body) as [[[hl hh] hp] ht].
    unfold finish_step.
    destruct (search POWER_RAMP_PATTERN body);
      [| destruct (search POWER_RANGE_PATTERN body);
         [| destruct (search POWER_STEADY_PATTERN body); [| destruct ht]]];
      try reflexivity;
      destruct (first_keyword INTENSITY_KEYWORDS (lower body));
      destruct (rc >? 1)%Z; reflexivity.
Qed.

(** C8. When the first quoted run of a line is a quotation mark, a
    non-empty text [body] without quotation mark and a quotation mark,
    [_parse_line] takes [body] as the notes and goes on with the line without
    the run: the repeat prefix, the duration and the targets are looked for in
    what stood before and after the run, so the outcome does not depend on
    the quoted text except for the notes; and the line made of the note
    "100% FTP note" and [ 5min 80% FTP] gives a steady step of 300 s at 80 %
    with the quoted text as notes. *)
Theorem quoted_notes_removed (pre body post : pystr) :
  body <> [] -> forallb not_quote body = true ->
  no_match_in NOTES_PATTERN pre (quote :: body ++ quote :: post) = true ->
  extract_notes (pre ++ quote :: body ++ quote :: post) = (body, pre ++ post)
  /\ _parse_line (pre ++ quote :: body ++ quote :: post)
     = parse_step (pre ++ quote :: body ++ quote :: post) body
         (fst (extract_repeat (pre ++ post))) (snd (extract_repeat (pre ++ post)))
  /\ (forall body',
        body' <> [] -> forallb not_quote body' = true ->
        no_match_in NOTES_PATTERN pre (quote :: body' ++ quote :: post) = true ->
        without_notes (_parse_line (pre ++ quote :: body' ++ quote :: post))
        = without_notes (_parse_line (pre ++ quote :: body ++ quote :: post)))
  /\ step_view (_parse_line quoted_line)
     = Some (STEADY, 300%Q, 80%Q, 80%Q, str "100% FTP note").
Proof.
  intros Hne Hb Hpre.
  assert (Hline : forall b, b <> [] -> forallb not_quote b = true ->
            no_match_in NOTES_PATTERN pre (quote :: b ++ quote :: post) = true ->
            _parse_line (pre ++ quote :: b ++ quote :: post)
            = parse_step (pre ++ quote :: b ++ quote :: post) b
                (fst (extract_repeat (pre ++ post)))
                (snd (extract_repeat (pre ++ post)))).
  { intros b Hn Hq Hp. unfold _parse_line.
    rewrite (extract_notes_quoted _ _ Hn Hq Hp).
    destruct (extract_repeat (pre ++ post)); reflexivity. }
  split; [apply extract_notes_quoted; assumption |].
  split; [apply Hline; assumption |].
  split; [| vm_compute; reflexivity].
  intros body' Hne' Hb' Hpre'.
  rewrite (Hline body Hne Hb Hpre), (Hline body' Hne' Hb' Hpre').
  apply parse_step_without_notes; assumption.
Qed.

(** The theorem at the line with the note "100% FTP note". *)
Lemma quoted_notes_removed_witness :
  extract_notes quoted_line = (str "100% FTP note", str " 5min 80% FTP").
Proof.
  apply (quoted_notes_removed [] (body := str "100% FTP note") (str " 5min 80% FTP"));
    [discriminate | reflexivity | reflexivity].
Defined.

(* ================================================================== *)
(** ** Power targets with two numbers *)
(* ================================================================== *)




(** Whatever holds a match of the range pattern holds a match of the ramp
    pattern, which is consulted first: no line is parsed to a step of type
    Range. *)
Lemma range_never_parsed line step :
  _parse_line line = Ok step ->
  step_type step <> RANGE /\ Forall (fun i => step_type i <> RANGE) (repeat_steps step).
Proof.
  intro H. apply parse_line_shape in H as (rc & base & Hp & Hr & _ & [[_ ->] | ->]).
  - split; [discriminate |]. simpl. constructor; [| constructor].
    destruct Hp as [-> | [-> | ->]]; discriminate.
  - rewrite Hr. split; [| constructor].
    destruct Hp as [-> | [-> | ->]]; discriminate.
Qed.

(** The line [5min 85-95% FTP], which the usage text of the program lists as
    a power range, is parsed to a ramp. *)
Lemma usage_range_line_is_ramp : parsed_kind "5min 85-95% FTP" = Some RAMP.
Proof. vm_compute. reflexivity. Qed.




(* ================================================================== *)
(** ** The model on the lines of the usage text *)
(* ================================================================== *)

Example parse_open_line :
  option_map (fun s => (step_type s, target_type s, duration_seconds s, notes s,
                        intensity s))
             (match _parse_line (str "10min open") with
              | Ok s => Some s
              | Raise _ => None
              end)
  = Some (OPEN, TARGET_OPEN, 600%Q, str "Ride at your own pace", Some I_ACTIVE).
Proof. vm_compute. reflexivity. Qed.

Example parse_repeat_line : _parse_line (str "3x 2min 100% FTP") = Ok repeat_line_step.
Proof. vm_compute. reflexivity. Qed.

Example parse_warmup_line :
  step_view (_parse_line (str "warmup 10min"))
  = Some (RAMP, 600%Q, 40%Q, 75%Q, str "Easy spin, gradually increase effort").
Proof. vm_compute. reflexivity. Qed.

Example parse_cadence_line :
  option_map (fun m => (Msg.notes m, bounds m)) (encode_line "5min 90% FTP @90-100rpm")
  = Some (Some (str "Cadence: 90-100 rpm"), (Some 90%Z, Some 90%Z)).
Proof. vm_compute. reflexivity. Qed.

Example parse_percentage_before_absolute :
  option_map bounds (encode_line "10min 150bpm 80% HR") = Some (Some 80%Z, Some 80%Z).
Proof. vm_compute. reflexivity. Qed.

Example parse_text_with_comments :
  match parse (str "# sweet spot
warmup 10min
3x 2min 100% FTP

// done
cooldown 5min") with
  | Ok l => map (fun s => (step_type s, name s)) l
  | Raise _ => []
  end
  = [(RAMP, str "Warmup"); (REPEAT, str "3x 100% FTP"); (RAMP, str "Cooldown")].
Proof. vm_compute. reflexivity. Qed.

Example total_duration_example :
  Qeq (total_duration_seconds
         (mkWorkout (str "w")
            [power_step STEADY "a" 300 80 80;
             repeat_of 4 [power_step STEADY "b" 60 100 100]]))
      540.
Proof. vm_compute. reflexivity. Qed.

(* ================================================================== *)
(** ** The line parser: what it raises *)
(* ================================================================== *)


(** The three stages of [_parse_line]: notes, repeat prefix, step. *)
Lemma parse_line_unfold line :
  _parse_line line
  = parse_step line (line_notes line) (line_repeat_count line) (line_body line).
Proof.
  unfold _parse_line, line_notes, line_repeat_count, line_body.
  destruct (extract_notes line) as [n l1]. cbn [fst snd].
  destruct (extract_repeat l1) as [rc b]. reflexivity.
Qed.





(* ================================================================== *)
(** ** The line parser: special keywords, repeats, intensity keywords *)
(* ================================================================== *)

Lemma described_finish mi rc base :
  step_type base <> REPEAT ->
  described_step (finish_step mi rc base) = with_manual mi base.
Proof.
  intro H. unfold finish_step. fold (with_manual mi base).
  assert (Ht : step_type (with_manual mi base) = step_type base)
    by (destruct mi; reflexivity).
  destruct (rc >? 1)%Z; [reflexivity |].
  unfold described_step. rewrite Ht.
  destruct (step_type base); try reflexivity. congruence.
Qed.





(** A parsed line is [finish_step] of a plain step. *)
Lemma parse_line_finish line s :
  _parse_line line = Ok s ->
  exists base,
    s = finish_step (manual_intensity_of line) (line_repeat_count line) base
    /\ plain_type (step_type base) /\ repeat_steps base = []
    /\ repeat_count base = 1%Z.
Proof.
  rewrite parse_line_unfold. unfold parse_step, manual_intensity_of.
  set (body := line_body line).
  destruct (first_keyword SPECIAL_KEYWORDS (lower body)) as [t|].
  - destruct (_parse_duration body) as [d|]; [| discriminate].
    destruct t; cbn [_create_special_step]; try discriminate;
      intro H; injection H as <-; eexists; (split; [reflexivity |]);
      unfold plain_type; simpl; auto.
  - destruct (_parse_duration body) as [d|]; [| discriminate].
    destruct (parse_cadence body) as [cl ch].
    destruct (parse_hr body) as [[[hl hh] hp] ht].
    destruct (search POWER_RAMP_PATTERN body) eqn:E1.
    { intro H; injection H as <-; eexists; (split; [reflexivity |]);
        unfold plain_type; simpl; auto. }
    destruct (search POWER_RANGE_PATTERN body) eqn:E2.
    { exfalso. apply search_none_iff in E1. apply E1.
      apply has_match_range_ramp, search_some_iff. congruence. }
    destruct (search POWER_STEADY_PATTERN body); [| destruct ht];
      try discriminate;
      intro H; injection H as <-; eexists; (split; [reflexivity |]);
      unfold plain_type; simpl; auto.
Qed.




(** X5.  When a line that parses holds an intensity keyword, the step it
    describes carries the intensity of the first such keyword in table
    order, and the encoder writes that intensity on its record, whatever
    the step type and the power bounds. *)
Theorem intensity_keyword_applied (line : pystr) (s : WorkoutStep) (i : Intensity) :
  _parse_line line = Ok s ->
  manual_intensity_of line = Some i ->
  intensity (described_step s) = Some i
  /\ forall k, Msg.intensity (fst (_create_single_step (described_step s) k)) = i.
Proof.
  intros H Hi. apply parse_line_finish in H as (base & -> & Hp & Hr & Hc).
  rewrite described_finish by (apply plain_not_repeat, Hp).
  rewrite Hi. cbn [with_manual].
  split; [reflexivity |].
  intro k. unfold _create_single_step.
  destruct (TargetType_eqb _ TARGET_OPEN || StepType_eqb _ OPEN);
    [| destruct (TargetType_eqb _ HEART_RATE); [destruct (hr_is_percentage _) |]];
    reflexivity.
Qed.

Lemma intensity_keyword_applied_witness :
  exists s, _parse_line sprint_line = Ok s
            /\ intensity (described_step s) = Some I_INTERVAL.
Proof.
  destruct (_parse_line sprint_line) as [s|e] eqn:E;
    [| vm_compute in E; discriminate E].
  exists s. split; [reflexivity |].
  apply (@intensity_keyword_applied sprint_line s I_INTERVAL E).
  vm_compute. reflexivity.
Defined.

(* ================================================================== *)
(** ** The line parser: power and heart rate targets *)
(* ================================================================== *)






(* ================================================================== *)
(** ** The text parser *)
(* ================================================================== *)

(** [parse] on the lines of the text. *)
Lemma parse_unfold text :
  parse text
  = match parse_lines 1 (text_lines text) with
    | Raise e => Raise e
    | Ok [] => Raise no_steps_error
    | Ok steps => Ok steps
    end.
Proof. reflexivity. Qed.

Lemma parse_lines_comments lines : forall n,
  forallb is_comment lines = true -> parse_lines n lines = Ok [].
Proof.
  induction lines as [|l lines IH]; intros n H; [reflexivity |].
  simpl in H. apply andb_true_iff in H as [Hl H].
  cbn [parse_lines]. fold (is_comment l). rewrite Hl. apply IH, H.
Qed.

Lemma parse_lines_ok lines : forall n steps,
  parse_lines n lines = Ok steps ->
  Forall2 (fun line step => _parse_line line = Ok step)
          (filter (fun l => negb (is_comment l)) lines) steps.
Proof.
  induction lines as [|l lines IH]; intros n steps H; cbn [parse_lines] in H.
  - injection H as <-. constructor.
  - fold (is_comment l) in H. cbn [filter].
    destruct (is_comment l); cbn [negb]; [eapply IH; exact H |].
    destruct (_parse_line l) as [s|e] eqn:E; [| discriminate].
    destruct (parse_lines (S n) lines) as [ss|e] eqn:E'; [| discriminate].
    injection H as <-. constructor; [exact E | eapply IH; exact E'].
Qed.

Lemma parse_lines_raise lines : forall n e,
  parse_lines n lines = Raise e -> exists k l e0, e = line_error k l e0.
Proof.
  induction lines as [|l lines IH]; intros n e H; cbn [parse_lines] in H;
    [discriminate |].
  destruct (startswith (str "#") l || startswith (str "//") l);
    [eapply IH; exact H |].
  destruct (_parse_line l) as [s|e0].
  - destruct (parse_lines (S n) lines) as [ss|e1] eqn:E; [discriminate |].
    injection H as <-. eapply IH; exact E.
  - injection H as <-. eexists _, _, _. reflexivity.
Qed.

Lemma line_error_not_no_steps k l e0 : line_error k l e0 <> no_steps_error.
Proof. unfold line_error, no_steps_error. intro H. injection H as H. discriminate H. Qed.

(** X8.  [parse] raises "No valid workout steps found" exactly when every
    non-blank line of the text is a comment (this includes the empty and the
    blank text); an error of a line is never this error. *)
Theorem parse_no_steps (text : pystr) :
  forallb is_comment (text_lines text) = true <-> parse text = Raise no_steps_error.
Proof.
  rewrite parse_unfold. split.
  - intro H. rewrite (parse_lines_comments _ 1 H). reflexivity.
  - destruct (parse_lines 1 (text_lines text)) as [ss|e] eqn:E.
    + destruct ss as [|s ss]; [| discriminate]. intros _.
      apply parse_lines_ok in E. inversion E as [Hf |].
      clear E. induction (text_lines text) as [|l lines IH]; [reflexivity |].
      cbn [filter forallb] in *. destruct (is_comment l); [apply IH, Hf | discriminate Hf].
    + intro H. injection H as ->.
      apply parse_lines_raise in E as (k & l & e0 & E).
      exfalso. symmetry in E. exact (line_error_not_no_steps E).
Qed.

Lemma parse_lines_all_ok lines : forall n steps,
  Forall2 (fun line step => _parse_line line = Ok step)
          (filter (fun l => negb (is_comment l)) lines) steps ->
  parse_lines n lines = Ok steps.
Proof.
  induction lines as [|l lines IH]; intros n steps H; cbn [parse_lines filter] in *.
  - inversion H. reflexivity.
  - fold (is_comment l). destruct (is_comment l); cbn [negb] in H; [apply IH, H |].
    inversion H as [| ? s ? ss Hs Hss]; subst.
    rewrite Hs, (IH (S n) ss Hss). reflexivity.
Qed.

Lemma parse_nonempty text sts : parse text = Ok sts -> sts <> [].
Proof.
  rewrite parse_unfold.
  destruct (parse_lines 1 (text_lines text)) as [ss|e]; [| discriminate].
  destruct ss; [discriminate |]. intro H. injection H as <-. discriminate.
Qed.

(** X9.  [parse] returns a list of steps exactly when that list is not empty
    and holds, in order, the steps of the non-blank, non-comment lines of
    the text, each of which parses: one step per such line, none dropped,
    none added. *)
Theorem parse_steps_in_order (text : pystr) (steps : list WorkoutStep) :
  parse text = Ok steps <->
  steps <> []
  /\ Forall2 (fun line step => _parse_line line = Ok step)
             (filter (fun l => negb (is_comment l)) (text_lines text)) steps.
Proof.
  rewrite parse_unfold. split.
  - destruct (parse_lines 1 (text_lines text)) as [ss|e] eqn:E; [| discriminate].
    destruct ss as [|s ss]; [discriminate |].
    intro H. injection H as <-. split; [discriminate |].
    eapply parse_lines_ok; exact E.
  - intros [Hne H]. rewrite (parse_lines_all_ok _ 1 H).
    destruct steps; [congruence | reflexivity].
Qed.

Lemma parse_lines_first_error good : forall n bad rest e,
  Forall (fun l => is_comment l = true \/ exists s, _parse_line l = Ok s) good ->
  is_comment bad = false -> _parse_line bad = Raise e ->
  parse_lines n (good ++ bad :: rest)
  = Raise (line_error (n + List.length good) bad e).
Proof.
  induction good as [|l good IH]; intros n bad rest e Hg Hc Hb.
  - cbn [app parse_lines]. fold (is_comment bad). rewrite Hc, Hb.
    simpl List.length. rewrite Nat.add_0_r. reflexivity.
  - inversion Hg as [| ? ? Hl Hg']; subst.
    cbn [app parse_lines]. fold (is_comment l).
    replace (n + List.length (l :: good)) with (S n + List.length good)
      by (simpl; lia).
    destruct (is_comment l) eqn:El; [apply IH; assumption |].
    destruct Hl as [Hl | [s Hs]]; [discriminate |].
    rewrite Hs, (IH (S n) bad rest e Hg' Hc Hb). reflexivity.
Qed.

(** X10.  [parse] stops at the first line that does not parse: when the lines
    before it are comments or parse, the error names that line by its
    position among the non-blank lines, counted from 1 and with the
    comments counted, quotes the stripped line and ends with the message of
    the error of the line; later lines are not looked at. *)
Theorem parse_first_error (text : pystr) (good : list pystr) (bad : pystr)
        (rest : list pystr) (e : exn) :
  text_lines text = good ++ bad :: rest ->
  Forall (fun l => is_comment l = true \/ exists s, _parse_line l = Ok s) good ->
  is_comment bad = false -> _parse_line bad = Raise e ->
  parse text = Raise (line_error (List.length good + 1) bad e).
Proof.
  intros Ht Hg Hc Hb. rewrite parse_unfold, Ht.
  rewrite (@parse_lines_first_error good 1 bad rest e Hg Hc Hb).
  rewrite Nat.add_comm. reflexivity.
Qed.

Lemma parse_first_error_witness :
  parse bad_text
  = Raise (line_error 3 (str "5min @90rpm") (no_target_error (str "5min @90rpm"))).
Proof.
  apply (@parse_first_error bad_text [str "warmup 10min"; str "# main set"]
           (str "5min @90rpm") [] (no_target_error (str "5min @90rpm"))).
  - vm_compute. reflexivity.
  - constructor; [right; eexists; vm_compute; reflexivity |].
    constructor; [left; reflexivity | constructor].
  - reflexivity.
  - vm_compute. reflexivity.
Defined.

(* ================================================================== *)
(** ** Durations *)
(* ================================================================== *)

Lemma digits_fold_nonneg s : forall acc,
  (0 <= acc)%Z -> forallb is_digit s = true ->
  (0 <= fold_left (fun a c => 10 * a + digit_val c)%Z s acc)%Z.
Proof.
  induction s as [|c s IH]; intros acc Ha H; cbn [fold_left]; [exact Ha |].
  simpl in H. apply andb_true_iff in H as [Hc H].
  apply IH; [| exact H].
  unfold is_digit in Hc. apply andb_true_iff in Hc as [H1 H2].
  apply N.leb_le in H1, H2. unfold digit_val, char in *. lia.
Qed.

Lemma digits_val_nonneg s :
  forallb is_digit s = true -> (0 <= digits_val s)%Z.
Proof. intro H. apply digits_fold_nonneg; [lia | exact H]. Qed.

Lemma decimal_value_nonneg ip frac :
  forallb is_digit ip = true -> (forall f, frac = Some f -> forallb is_digit f = true) ->
  (0 <= decimal_value ip frac)%Q.
Proof.
  intros Hi Hf. pose proof (digits_val_nonneg _ Hi) as H1.
  destruct frac as [f|]; unfold decimal_value, Qle; simpl.
  - pose proof (digits_val_nonneg _ (Hf f eq_refl)) as H2. nia.
  - lia.
Qed.

Lemma dot_lit c : lit_matches (chr ".") c = true -> c = chr ".".
Proof.
  intro H. apply lit_matches_eq in H.
  change (lower_char (chr ".")) with 46%N in H. change (chr ".") with 46%N.
  apply lower_char_inv in H. destruct H as [H | (H & H1 & _)]; [exact H | lia].
Qed.

Lemma plus_digits t g g' :
  matches (Plus is_digit) t g g' -> g' = g /\ digits t.
Proof.
  intro H. inversion H; subst. split; [reflexivity |].
  split; [discriminate |]. simpl. apply andb_true_iff. split; assumption.
Qed.

Lemma number_shape t g g' :
  matches number t g g' ->
  g' = g /\ exists ip frac,
      t = ip ++ frac_text frac /\ digits ip /\ (forall f, frac = Some f -> digits f).
Proof.
  unfold number. intro H.
  apply matches_Cat_inv in H as (a & b & g1 & -> & Ha & Hb).
  apply plus_digits in Ha as (-> & Hip).
  inversion Hb as [| | | | | | r u g0 g2 Hs | r g0 | | |]; subst; clear Hb.
  - apply matches_Cat_inv in Hs as (c & d & g2' & -> & Hc & Hd).
    apply plus_digits in Hd as (-> & Hfd).
    inversion Hc as [| c0 x g0 Hl | | | | | | | | |]; subst; clear Hc.
    apply dot_lit in Hl. subst.
    split; [reflexivity |].
    exists a, (Some d). split; [reflexivity |].
    split; [exact Hip |].
    intros f Hf. injection Hf as <-. exact Hfd.
  - split; [reflexivity |].
    exists a, None. split; [reflexivity |].
    split; [exact Hip | discriminate].
Qed.

Lemma duration_groups u g :
  matches DURATION_PATTERN u [] g ->
  exists t1 t2 cls,
    lookup 1 g = Some t1 /\ lookup 2 g = Some t2
    /\ unit_class_of t2 = Some cls
    /\ exists ip frac,
        t1 = ip ++ frac_text frac /\ digits ip /\ (forall f, frac = Some f -> digits f).
Proof.
  unfold DURATION_PATTERN. cbn [cats]. intro H.
  apply matches_Cat_inv in H as (t1 & r1 & g1 & -> & H1 & H).
  apply matches_Cat_inv in H as (w & t2 & g2 & -> & H2 & H).
  apply matches_Grp_inv in H1 as (g0 & -> & H1).
  apply number_shape in H1 as (-> & ip & frac & -> & Hip & Hf).
  inversion H2; subst. clear H2.
  apply matches_Grp_inv in H as (g3 & -> & H).
  pose proof (unit_alts_class H) as Hc.
  destruct (unit_class_of t2) as [cls|] eqn:Ec; [| congruence].
  exists (ip ++ frac_text frac), t2, cls.
  assert (Hg : g3 = [(1, ip ++ frac_text frac)]).
  { revert H. unfold unit_alts. cbn [alts word lits str list_ascii_of_string map].
    intro H. inv_matches; reflexivity. }
  subst g3. repeat split; eauto.
Qed.

(** A parsed duration is never negative. *)
Lemma parse_duration_nonneg (line : pystr) (d : Q) :
  _parse_duration line = Some d -> (0 <= d)%Q.
Proof.
  rewrite parse_duration_eq. unfold search.
  destruct (search_from DURATION_PATTERN 0 line) as [m|] eqn:E; [| discriminate].
  apply search_from_sound in E as (a & u & b & _ & Hu & _).
  apply duration_groups in Hu as (t1 & t2 & cls & H1 & H2 & Hc & ip & frac & -> & Hip & Hf).
  unfold group_str, group. rewrite H1, H2, Hc. cbn [option_map].
  intro H. injection H as <-.
  rewrite (@float_of_str_decimal ip frac (proj2 Hip)).
  assert (Hv : (0 <= decimal_value ip frac)%Q).
  { apply decimal_value_nonneg; [exact (proj2 Hip) |].
    intros f Hfe. exact (proj2 (Hf f Hfe)). }
  destruct cls; simpl; [exact Hv | |];
    apply Qmult_le_0_compat; [exact Hv | discriminate | exact Hv | discriminate].
Qed.


Lemma duration_with_manual mi b :
  duration_seconds (with_manual mi b) = duration_seconds b.
Proof. destruct mi; reflexivity. Qed.

Lemma parse_line_duration line s :
  _parse_line line = Ok s ->
  _parse_duration (line_body line) = Some (duration_seconds (described_step s)).
Proof.
  intro H. pose proof (@parse_line_finish _ _ H) as (base & Hs & Hp & _).
  assert (Hd : described_step s = with_manual (manual_intensity_of line) base).
  { rewrite Hs. apply described_finish, plain_not_repeat, Hp. }
  rewrite Hd.
  rewrite duration_with_manual. clear Hd.
  revert H. rewrite parse_line_unfold, Hs. unfold parse_step.
  set (body := line_body line).
  set (rc := line_repeat_count line). set (mi := manual_intensity_of line).
  assert (Hinj : forall b1, step_type b1 <> REPEAT ->
             Ok (finish_step (first_keyword INTENSITY_KEYWORDS (lower body)) rc b1)
             = Ok (finish_step mi rc base) ->
             duration_seconds b1 = duration_seconds base).
  { intros b1 Hn E. injection E as E.
    apply (f_equal described_step) in E.
    rewrite !described_finish in E by (try exact Hn; apply plain_not_repeat, Hp).
    apply (f_equal duration_seconds) in E.
    rewrite !duration_with_manual in E. exact E. }
  destruct (first_keyword SPECIAL_KEYWORDS (lower body)) as [t|].
  - destruct (_parse_duration body) as [d|]; [| discriminate].
    destruct t; cbn [_create_special_step]; try discriminate;
      intro E; apply Hinj in E; try discriminate;
      simpl in E; rewrite <- E; reflexivity.
  - destruct (_parse_duration body) as [d|]; [| discriminate].
    destruct (parse_cadence body) as [cl ch].
    destruct (parse_hr body) as [[[hl hh] hp] ht].
    destruct (search POWER_RAMP_PATTERN body);
      [| destruct (search POWER_RANGE_PATTERN body);
         [| destruct (search POWER_STEADY_PATTERN body); [| destruct ht]]];
      try discriminate;
      intro E; apply Hinj in E; try discriminate;
      simpl in E; rewrite <- E; reflexivity.
Qed.



(* ================================================================== *)
(** ** The encoder on parsed workouts *)
(* ================================================================== *)

Lemma step_records_block s i :
  repeat_shape s ->
  Forall marker_points_back (fst (step_records s i))
  /\ List.length (fst (step_records s i)) = (if is_repeat s then 2 else 1).
Proof.
  intro Hs. unfold step_records, is_repeat.
  destruct (StepType_eqb (step_type s) REPEAT) eqn:E.
  - apply StepType_eqb_eq in E. destruct (Hs E) as (inner & Hi & _).
    unfold _create_repeat_steps. rewrite Hi. cbn [create_single_steps].
    pose proof (single_step_index inner i) as (Hx & Hn & Ht).
    destruct (_create_single_step inner i) as [m j]. cbn [fst snd] in *. subst j.
    cbn [fst app List.length]. split; [| reflexivity].
    constructor.
    + intro Hm. unfold is_marker in Hm. congruence.
    + constructor; [| constructor]. intros _. cbn. split; [lia |].
      f_equal. lia.
  - pose proof (single_step_index s i) as (Hx & Hn & Ht).
    destruct (_create_single_step s i) as [m j]. cbn [fst snd] in *.
    split; [| reflexivity]. constructor; [| constructor].
    intro Hm. unfold is_marker in Hm. congruence.
Qed.

Lemma create_steps_blocks l : forall i,
  Forall repeat_shape l ->
  Forall marker_points_back (fst (create_steps l i))
  /\ List.length (fst (create_steps l i)) = List.length l + List.length (filter is_repeat l).
Proof.
  induction l as [|s l IH]; intros i H.
  - split; [constructor | reflexivity].
  - inversion H as [| ? ? Hs Hl]; subst.
    rewrite create_steps_cons. cbn [fst].
    destruct (step_records_block i Hs) as (Hm & Hn).
    destruct (IH (snd (step_records s i)) Hl) as (Hm' & Hn').
    split; [apply Forall_app; split; assumption |].
    rewrite length_app, Hn, Hn'. cbn [filter List.length].
    destruct (is_repeat s); simpl; lia.
Qed.

(** X13.  For the steps [parse] returns, the encoder emits one record per step
    plus one marker per repeat block; every marker refers to the record just
    before it (its block has exactly one inner step) and is never the first
    record; the step count of the header is the number of records, and is
    at least 1. *)
Theorem parsed_workout_records (text nm : pystr) (sts : list WorkoutStep) :
  parse text = Ok sts ->
  let w := mkWorkout nm sts in
  Forall marker_points_back (_create_workout_steps w)
  /\ List.length (_create_workout_steps w)
     = List.length sts + List.length (filter is_repeat sts)
  /\ num_valid_steps (_create_workout_message w) = List.length (_create_workout_steps w)
  /\ 1 <= num_valid_steps (_create_workout_message w).
Proof.
  intros H w.
  assert (Hf : Forall repeat_shape sts).
  { eapply parse_Forall; [| exact H]. exact parse_line_repeat_shape. }
  destruct (@create_steps_blocks sts 0 Hf) as (Hm & Hn).
  assert (Hc : num_valid_steps (_create_workout_message w)
               = List.length (_create_workout_steps w)).
  { unfold _create_workout_message, _count_valid_steps, _create_workout_steps.
    cbn [num_valid_steps steps w]. rewrite count_fold, create_steps_length. reflexivity. }
  split; [exact Hm |]. split; [exact Hn |]. split; [exact Hc |].
  rewrite Hc. unfold _create_workout_steps. cbn [steps w]. rewrite Hn.
  apply parse_nonempty in H.
  destruct sts; [congruence | simpl; lia].
Qed.

Lemma parsed_workout_records_witness :
  exists sts, parse good_text = Ok sts
              /\ List.length (_create_workout_steps (mkWorkout (str "w") sts)) = 4.
Proof.
  destruct (parse good_text) as [sts|e] eqn:E; [| vm_compute in E; discriminate E].
  exists sts. split; [reflexivity |].
  destruct (@parsed_workout_records good_text (str "w") sts E) as (_ & Hn & _).
  rewrite Hn. vm_compute in E. injection E as <-. reflexivity.
Defined.

(* ================================================================== *)
(** ** Total duration *)
(* ================================================================== *)

Lemma total_fold l : forall acc,
  Qeq (fold_left (fun total step =>
                    if StepType_eqb (step_type step) REPEAT
                    then Qplus total
                           (Qmult (sum_durations (repeat_steps step))
                                  (inject_Z (repeat_count step)))
                    else Qplus total (duration_seconds step)) l acc)
      (Qplus acc (fold_right (fun s t => Qplus (step_total s) t) 0%Q l)).
Proof.
  induction l as [|s l IH]; intro acc; cbn [fold_left fold_right].
  - ring.
  - rewrite IH. unfold step_total, is_repeat.
    destruct (StepType_eqb (step_type s) REPEAT); ring.
Qed.

Lemma sum_durations_fold l : forall acc,
  Qeq (fold_left (fun a s => Qplus a (duration_seconds s)) l acc)
      (Qplus acc (fold_right (fun s t => Qplus (duration_seconds s) t) 0%Q l)).
Proof.
  induction l as [|s l IH]; intro acc; cbn [fold_left fold_right].
  - ring.
  - rewrite IH. ring.
Qed.

Lemma step_totals_app a : forall tb,
  Qeq (fold_right (fun s t => Qplus (step_total s) t) tb a)
      (Qplus (fold_right (fun s t => Qplus (step_total s) t) 0%Q a) tb).
Proof.
  induction a as [|s a IH]; intro tb; cbn [fold_right]; [ring |].
  rewrite IH. ring.
Qed.

Lemma parsed_step_total line s :
  _parse_line line = Ok s ->
  exists d,
    _parse_duration (line_body line) = Some d
    /\ (0 <= d)%Q
    /\ Qeq (step_total s)
           (if (line_repeat_count line >? 1)%Z
            then Qmult d (inject_Z (line_repeat_count line))
            else d)
    /\ (0 <= step_total s)%Q.
Proof.
  intro H. pose proof (@parse_line_duration _ _ H) as Hd.
  pose proof (@parse_duration_nonneg _ _ Hd) as Hn.
  exists (duration_seconds (described_step s)).
  split; [exact Hd |]. split; [exact Hn |].
  apply parse_line_finish in H as (base & Hs & Hp & Hr & Hc).
  pose proof (plain_not_repeat Hp) as Hnr.
  revert Hn. rewrite Hs, described_finish by exact Hnr.
  unfold finish_step. fold (with_manual (manual_intensity_of line) base).
  set (b := with_manual (manual_intensity_of line) base).
  assert (Hb : step_type b = step_type base)
    by (unfold b; destruct (manual_intensity_of line); reflexivity).
  intro Hn.
  destruct (Z.gtb_spec (line_repeat_count line) 1) as [Hgt | Hle].
  - unfold step_total, is_repeat. cbn.
    assert (E : Qeq (0 + duration_seconds b) (duration_seconds b)) by ring.
    split.
    + rewrite E. reflexivity.
    + rewrite E. apply Qmult_le_0_compat; [exact Hn |].
      unfold Qle. simpl. lia.
  - unfold step_total, is_repeat. rewrite Hb.
    destruct (step_type base); try (split; [reflexivity | exact Hn]). congruence.
Qed.

Lemma totals_nonneg l :
  Forall (fun s => (0 <= step_total s)%Q) l ->
  (0 <= fold_right (fun s t => Qplus (step_total s) t) 0%Q l)%Q.
Proof.
  induction 1; cbn [fold_right]; [apply Qle_refl |].
  apply (Qle_trans _ (0 + 0)); [apply Qle_refl |].
  apply Qplus_le_compat; assumption.
Qed.

(** X14.  The total duration of a workout made of the steps [parse] returns is
    never negative. *)
Theorem parsed_total_duration_nonneg (text nm : pystr) (sts : list WorkoutStep) :
  parse text = Ok sts ->
  (0 <= total_duration_seconds (mkWorkout nm sts))%Q.
Proof.
  intro H.
  assert (Hf : Forall (fun s => (0 <= step_total s)%Q) sts).
  { eapply parse_Forall; [| exact H].
    intros line s Hl. destruct (@parsed_step_total _ _ Hl) as (d & _ & _ & _ & Hn). exact Hn. }
  unfold total_duration_seconds. cbn [steps]. rewrite total_fold.
  apply totals_nonneg in Hf.
  apply (Qle_trans _ (0 + 0)); [apply Qle_refl |].
  apply Qplus_le_compat; [apply Qle_refl | exact Hf].
Qed.

Lemma parsed_total_duration_nonneg_witness :
  exists sts, parse good_text = Ok sts
              /\ (0 <= total_duration_seconds (mkWorkout (str "w") sts))%Q.
Proof.
  destruct (parse good_text) as [sts|e] eqn:E; [| vm_compute in E; discriminate E].
  exists sts. split; [reflexivity |].
  apply (@parsed_total_duration_nonneg good_text (str "w") sts E).
Defined.



(** X16.  [__post_init__] is idempotent; it copies the low power bound to the
    high one exactly for a Steady step whose high bound is 0 and leaves the
    high bound alone otherwise; after it a step with a low cadence has a
    high cadence, which is the low one when none was given. *)
Theorem post_init_normalises (s : WorkoutStep) :
  post_init (post_init s) = post_init s
  /\ (step_type s = STEADY -> Qeq (power_high_pct s) 0 ->
      power_high_pct (post_init s) = power_low_pct s)
  /\ (step_type s <> STEADY \/ ~ Qeq (power_high_pct s) 0 ->
      power_high_pct (post_init s) = power_high_pct s)
  /\ (cadence_low s <> None -> cadence_high (post_init s) <> None)
  /\ (forall lo, cadence_low s = Some lo -> cadence_high s = None ->
        cadence_high (post_init s) = Some lo).
Proof.
  destruct s as [st d tg pl ph hrt hl hh hp cl ch nm nt it rc rs].
  unfold post_init. cbn [step_type power_high_pct power_low_pct cadence_low cadence_high
    duration_seconds target_type hr_target_type hr_low hr_high hr_is_percentage name
    notes intensity repeat_count repeat_steps].
  split; [| split; [| split; [| split]]].
  - destruct (StepType_eqb st STEADY) eqn:Es; cbn [andb].
    + destruct (Qeq_bool ph 0) eqn:Eq; cbn [andb]; rewrite ?Es, ?Eq; cbn [andb].
      * destruct (Qeq_bool pl 0); destruct cl, ch; reflexivity.
      * destruct cl, ch; reflexivity.
    + rewrite ?Es. cbn [andb]. destruct cl, ch; reflexivity.
  - intros -> Hq. apply Qeq_bool_iff in Hq. rewrite Hq. reflexivity.
  - intros [Hn | Hq].
    + apply StepType_eqb_neq in Hn. rewrite Hn. reflexivity.
    + destruct (Qeq_bool ph 0) eqn:E; [apply Qeq_bool_iff in E; contradiction |].
      rewrite andb_false_r. reflexivity.
  - destruct cl, ch; congruence.
  - intros lo -> ->. reflexivity.
Qed.

Lemma fmt02d_two_digits z : (0 <= z < 60)%Z -> fmt02d z = two_digits z.
Proof.
  intro H.
  assert (E : z = Z.of_nat (Z.to_nat z)) by lia.
  assert (B : Z.to_nat z < 60) by lia.
  rewrite E. generalize dependent (Z.to_nat z). clear. intros n _ B.
  do 60 (destruct n as [|n]; [vm_compute; reflexivity |]). lia.
Qed.

(** X17.  [total_duration_formatted] splits the truncated total [t] into hours,
    minutes and seconds with [t = 3600 h + 60 m + s], minutes and seconds in
    0..59 and hours not negative when [t] is not; it prints [H:MM:SS] when
    there is at least one hour and [M:SS] otherwise: seconds always with
    two digits, minutes with two digits after the hours and without
    padding when they lead, hours without padding. *)
Theorem total_duration_formatted_fields (w : Workout) :
  let t := py_int (total_duration_seconds w) in
  exists h m s,
    t = (h * 3600 + m * 60 + s)%Z
    /\ (0 <= m < 60)%Z /\ (0 <= s < 60)%Z
    /\ ((0 <= t)%Z -> (0 <= h)%Z)
    /\ total_duration_formatted w
       = if (h >? 0)%Z
         then str_of_Z h ++ str ":" ++ two_digits m ++ str ":" ++ two_digits s
         else str_of_Z m ++ str ":" ++ two_digits s.
Proof.
  intro t. unfold total_duration_formatted. fold t.
  exists (t / 3600)%Z, ((t mod 3600) / 60)%Z, ((t mod 3600) mod 60)%Z.
  pose proof (Z.div_mod t 3600 ltac:(lia)) as H1.
  pose proof (Z.mod_pos_bound t 3600 ltac:(lia)) as H2.
  pose proof (Z.div_mod (t mod 3600) 60 ltac:(lia)) as H3.
  pose proof (Z.mod_pos_bound (t mod 3600) 60 ltac:(lia)) as H4.
  assert (Hm : (0 <= (t mod 3600) / 60 < 60)%Z).
  { split; [apply Z.div_pos; lia | apply Z.div_lt_upper_bound; lia]. }
  split; [lia |]. split; [exact Hm |]. split; [exact H4 |].
  split; [intro Ht; apply Z.div_pos; lia |].
  rewrite !fmt02d_two_digits by assumption. reflexivity.
Qed.

(* ================================================================== *)
(** ** Open targets, repeat prefixes, cadence *)
(* ================================================================== *)

Lemma open_target_cases (step : WorkoutStep) (i : nat) :
  (Msg.target_type (fst (_create_single_step step i)) = T_OPEN
   <-> target_type step = TARGET_OPEN \/ step_type step = OPEN)
  /\ (Msg.target_type (fst (_create_single_step step i)) = T_HEART_RATE
      <-> target_type step = HEART_RATE /\ step_type step <> OPEN).
Proof.
  unfold _create_single_step.
  destruct (target_type step) eqn:Et; destruct (step_type step) eqn:Es;
    destruct (hr_is_percentage step); cbn;
    split;
    solve [ split; intro H; solve [ discriminate H | reflexivity | congruence
                                  | intuition congruence ] ].
Qed.

(** X18.  The record of a step has the open target exactly when the step has the
    open target kind or the Open step type, and exactly then it has no
    custom bounds; it has the heart rate target exactly when the step has
    the heart rate kind and is not of type Open; its target value is always
    0. *)
Theorem open_target_has_no_bounds (step : WorkoutStep) (i : nat) :
  let m := fst (_create_single_step step i) in
  (Msg.target_type m = T_OPEN
   <-> target_type step = TARGET_OPEN \/ step_type step = OPEN)
  /\ (bounds m = (None, None) <-> Msg.target_type m = T_OPEN)
  /\ (Msg.target_type m = T_HEART_RATE
      <-> target_type step = HEART_RATE /\ step_type step <> OPEN)
  /\ Msg.target_value m = 0%Z.
Proof.
  cbv zeta. unfold _create_single_step, bounds.
  destruct (target_type step) eqn:Et; destruct (step_type step) eqn:Es;
    destruct (hr_is_percentage step); cbn;
    (split; [| split; [| split]]);
    solve [ reflexivity
          | split; intro H; solve [ discriminate H | reflexivity | congruence
                                  | intuition congruence ] ].
Qed.

Lemma x_lit c : lower_char c = chr "x" -> lit_matches (chr "x") c = true.
Proof. intro H. rewrite (@lit_matches_lower _ _ _ H). reflexivity. Qed.

Lemma takes_repeat ds ws c ws1 rest :
  digits ds -> forallb is_space ws = true -> lower_char c = chr "x" ->
  ws1 <> [] -> forallb is_space ws1 = true -> stops is_space rest ->
  takes REPEAT_PATTERN (ds ++ ws ++ [c] ++ ws1) rest [] [(1, ds)].
Proof.
  intros [Hn Hd] Hws Hc Hn1 Hws1 Hst.
  assert (Hcs : is_space c = false /\ is_digit c = false).
  { apply lower_char_inv in Hc. change (chr "x") with 120%N in Hc.
    destruct Hc as [-> | (Hc & _ & _)]; [split; reflexivity |].
    assert (c = 88%N) as -> by lia. split; reflexivity. }
  unfold REPEAT_PATTERN. cbn [cats].
  eapply takes_Cat.
  - apply takes_Grp, takes_Plus; [exact Hn | exact Hd |].
    destruct ws as [|w ws]; simpl; [tauto |].
    simpl in Hws. apply andb_true_iff in Hws as [Hw _].
    apply space_not_digit, Hw.
  - eapply takes_Cat.
    + apply takes_Star; [exact Hws | simpl; tauto].
    + eapply takes_Cat.
      * apply takes_Lit, x_lit, Hc.
      * apply takes_Plus; assumption.
Qed.

(** X19.  A line that starts with digits, optional white space, [x] or [X], and
    at least one white space character is read as a repeat prefix: the
    count is the value of the digits and the rest of the line, stripped, is
    the body. *)
Theorem repeat_prefix_parsed (ds ws : pystr) (c : char) (ws1 rest : pystr) :
  digits ds -> forallb is_space ws = true -> lower_char c = chr "x" ->
  ws1 <> [] -> forallb is_space ws1 = true -> stops is_space rest ->
  extract_repeat (ds ++ ws ++ [c] ++ ws1 ++ rest) = (digits_val ds, rstrip rest).
Proof.
  intros Hd Hws Hc Hn1 Hws1 Hst.
  pose proof (takes_match_here (@takes_repeat ds ws c ws1 rest Hd Hws Hc Hn1 Hws1 Hst)) as Hm.
  unfold extract_repeat, re_match.
  replace (ds ++ ws ++ [c] ++ ws1 ++ rest) with ((ds ++ ws ++ [c] ++ ws1) ++ rest)
    by (rewrite <- !app_assoc; reflexivity).
  rewrite Hm. unfold group_str, group, slice_from, int_of_str. cbn [m_caps m_end lookup Nat.eqb].
  rewrite skipn_length_app. f_equal.
  unfold strip. f_equal.
  destruct rest as [|r rest]; [reflexivity |].
  simpl in Hst. simpl. rewrite Hst. reflexivity.
Qed.

Lemma repeat_prefix_parsed_witness :
  extract_repeat (str "12" ++ str " " ++ [chr "X"] ++ str "  " ++ str "2min 100% FTP ")
  = (digits_val (str "12"), rstrip (str "2min 100% FTP ")).
Proof.
  apply (@repeat_prefix_parsed (str "12") (str " ") (chr "X") (str "  ")
           (str "2min 100% FTP "));
    try (vm_compute; reflexivity).
  - split; [discriminate | reflexivity].
  - discriminate.
Defined.





(** X21.  No step [parse] returns, at top level or inside a repeat block, has
    the type Range: every text the range pattern matches is matched by the
    ramp pattern, which is consulted first. *)
Theorem range_type_never_parsed (text : pystr) (sts : list WorkoutStep) :
  parse text = Ok sts ->
  Forall (fun s => step_type s <> RANGE
                   /\ Forall (fun i => step_type i <> RANGE) (repeat_steps s)) sts
  /\ forall line, has_match POWER_RANGE_PATTERN line -> has_match POWER_RAMP_PATTERN line.
Proof.
  intro H. split; [| exact has_match_range_ramp].
  eapply parse_Forall; [| exact H]. exact range_never_parsed.
Qed.

Lemma range_type_never_parsed_witness :
  exists sts, parse good_text = Ok sts
              /\ Forall (fun s => step_type s <> RANGE
                                  /\ Forall (fun i => step_type i <> RANGE)
                                            (repeat_steps s)) sts.
Proof.
  destruct (parse good_text) as [sts|e] eqn:E; [| vm_compute in E; discriminate E].
  exists sts. split; [reflexivity |].
  apply (@range_type_never_parsed good_text sts E).
Defined.

Lemma types_with_manual mi b :
  target_type (with_manual mi b) = target_type b
  /\ step_type (with_manual mi b) = step_type b.
Proof. destruct mi; split; reflexivity. Qed.

(** X22.  The step a parsed line describes has a power, heart rate or open
    target kind; a power kind is encoded with the power target and a heart
    rate kind with the heart rate target, so the test for Open in the
    encoder never overrides a parsed power or heart rate target; the open
    kind goes with the Open step type, and the other way round; the
    duration type of the record is Time. *)
Theorem parsed_targets_encoded (line : pystr) (s : WorkoutStep) (i : nat) :
  _parse_line line = Ok s ->
  let b := described_step s in
  let m := fst (_create_single_step b i) in
  (target_type b = POWER \/ target_type b = HEART_RATE \/ target_type b = TARGET_OPEN)
  /\ (target_type b = POWER -> Msg.target_type m = T_POWER)
  /\ (target_type b = HEART_RATE -> Msg.target_type m = T_HEART_RATE)
  /\ (target_type b = TARGET_OPEN <-> step_type b = OPEN)
  /\ Msg.duration_type m = TIME.
Proof.
  intros H b m.
  pose proof (@parse_line_finish _ _ H) as (base & Hs & Hp & _).
  assert (Hd : b = with_manual (manual_intensity_of line) base).
  { unfold b. rewrite Hs. apply described_finish, plain_not_repeat, Hp. }
  assert (Hw : target_type b = target_type base /\ step_type b = step_type base)
    by (rewrite Hd; destruct (manual_intensity_of line); split; reflexivity).
  destruct Hw as (Ht & Hst).
  assert (Hbase : (target_type base = POWER /\ step_type base <> OPEN)
                  \/ (target_type base = HEART_RATE /\ step_type base <> OPEN)
                  \/ (target_type base = TARGET_OPEN /\ step_type base = OPEN)).
  { clear Hd Ht Hst. revert H. rewrite parse_line_unfold, Hs. unfold parse_step.
    set (body := line_body line).
    assert (Hinj : forall b1, step_type b1 <> REPEAT ->
               Ok (finish_step (first_keyword INTENSITY_KEYWORDS (lower body))
                     (line_repeat_count line) b1)
               = Ok (finish_step (manual_intensity_of line) (line_repeat_count line) base) ->
               target_type b1 = target_type base /\ step_type b1 = step_type base).
    { intros b1 Hn E. injection E as E.
      apply (f_equal described_step) in E.
      rewrite !described_finish in E by (try exact Hn; apply plain_not_repeat, Hp).
      pose proof (f_equal target_type E) as E1. pose proof (f_equal step_type E) as E2.
      rewrite !(proj1 (types_with_manual _ _)) in E1.
      rewrite !(proj2 (types_with_manual _ _)) in E2. auto. }
    destruct (first_keyword SPECIAL_KEYWORDS (lower body)) as [t|].
    - destruct (_parse_duration body) as [d|]; [| discriminate].
      destruct t; cbn [_create_special_step]; try discriminate;
        intro E; apply Hinj in E; try discriminate; destruct E as (E1 & E2);
        rewrite <- E1, <- E2; simpl;
        first [left; split; [reflexivity | discriminate]
              | right; right; split; reflexivity].
    - destruct (_parse_duration body) as [d|]; [| discriminate].
      destruct (parse_cadence body) as [cl ch].
      destruct (parse_hr body) as [[[hl hh] hp] ht].
      destruct (search POWER_RAMP_PATTERN body);
        [| destruct (search POWER_RANGE_PATTERN body);
           [| destruct (search POWER_STEADY_PATTERN body); [| destruct ht]]];
        try discriminate;
        intro E; apply Hinj in E; try discriminate; destruct E as (E1 & E2);
        rewrite <- E1, <- E2; simpl;
        first [left; split; [reflexivity | discriminate]
              | right; left; split; [reflexivity | discriminate]]. }
  rewrite <- Ht, <- Hst in Hbase.
  pose proof (open_target_cases b i) as (Ho & Hh).
  fold m in Ho, Hh.
  assert (Htime : Msg.duration_type m = TIME) by (unfold m; apply single_step_index).
  assert (Hpow : target_type b = POWER -> step_type b <> OPEN ->
                 Msg.target_type m = T_POWER).
  { intros E1 E2. destruct (Msg.target_type m) eqn:Em; [| | reflexivity].
    - destruct (proj1 Ho eq_refl); congruence.
    - destruct (proj1 Hh eq_refl); congruence. }
  destruct Hbase as [[E1 E2] | [[E1 E2] | [E1 E2]]].
  - split; [auto |]. split; [intros _; apply Hpow; assumption |].
    split; [intro; congruence |].
    split; [split; intro; congruence | exact Htime].
  - split; [auto |]. split; [intro; congruence |].
    split; [intros _; apply Hh; split; assumption |].
    split; [split; intro; congruence | exact Htime].
  - split; [auto |]. split; [intro; congruence |].
    split; [intro; congruence |].
    split; [split; intro; assumption | exact Htime].
Qed.

Lemma parsed_targets_encoded_witness :
  Msg.duration_type
    (fst (_create_single_step (described_step repeat_line_step) 0)) = TIME.
Proof.
  apply (@parsed_targets_encoded (str "3x 2min 100% FTP") repeat_line_step 0).
  vm_compute. reflexivity.
Defined.
